(** * Asynchronous event processing with pthreads (src/unix/uthreads.c)

    A shallow embedding of the background manager [_bg_man_pthreads]:
    the callback table [funcs], the queue of stale callbacks
    [stale_funcs], the [cli_count] gate and the interval scaling done by
    the driver thread, together with the properties stated for them. *)

From Stdlib Require Import ZArith Lia.
From stdpp Require Import list.

Open Scope Z_scope.

(** ** Data model *)

(** [#define MAX_FUNCS 16] *)
Definition MAX_FUNCS : nat := 16.

(** A [bg_func] is a pointer to a callback.  A non-null pointer is
    identified by its address, the null pointer is [None]. *)
Definition handle : Type := positive.
Abbreviation bg_func := (option handle).
Abbreviation NULL := (@None handle).

(** [int] is a 32-bit two's complement integer. *)
Definition INT_MAX : Z := 2147483647.
Definition INT_MIN : Z := -2147483648.
Definition wrap_int (z : Z) : Z := (z + 2 ^ 31) mod 2 ^ 32 - 2 ^ 31.
Definition int_range (z : Z) : Prop := INT_MIN ≤ z ≤ INT_MAX.

(** The file-level variables.  [funcs] and [stale_funcs] are arrays of
    [MAX_FUNCS] cells, held as lists and indexed with [!!].  The array
    indices and [max_func] only take values between 0 and [MAX_FUNCS]
    (see [bg_wf]), so they are natural numbers; [cli_count] is an [int]
    that any number of calls can move, so it is a [Z] that wraps.

    The condition variable [cli_cond] is observed through two fields:
    [cond_signals] counts the calls of [pthread_cond_signal] made on it,
    and [driver_waiting] tells whether the driver thread is blocked in
    [pthread_cond_wait] on it (the driver is the only thread that ever
    waits on [cli_cond]). *)
Record bg_state : Type := BgState {
  funcs : list bg_func;
  stale_funcs : list bg_func;
  max_func : nat;
  cli_count : Z;
  cond_signals : nat;
  driver_waiting : bool
}.

Definition set_funcs (fs : list bg_func) (st : bg_state) : bg_state :=
  BgState fs (stale_funcs st) (max_func st) (cli_count st)
          (cond_signals st) (driver_waiting st).

Definition set_stale_funcs (q : list bg_func) (st : bg_state) : bg_state :=
  BgState (funcs st) q (max_func st) (cli_count st)
          (cond_signals st) (driver_waiting st).

Definition set_max_func (m : nat) (st : bg_state) : bg_state :=
  BgState (funcs st) (stale_funcs st) m (cli_count st)
          (cond_signals st) (driver_waiting st).

Definition set_cli_count (c : Z) (st : bg_state) : bg_state :=
  BgState (funcs st) (stale_funcs st) (max_func st) c
          (cond_signals st) (driver_waiting st).

(** [pthread_cond_signal (&cli_cond)]: one more signal, and the waiting
    thread, if there is one, is released. *)
Definition pthread_cond_signal (st : bg_state) : bg_state :=
  BgState (funcs st) (stale_funcs st) (max_func st) (cli_count st)
          (S (cond_signals st)) false.

(** The driver thread reaching
    [while (cli_count > 0) pthread_cond_wait (&cli_cond, &cli_mutex);]
    blocks when the count is positive. *)
Definition driver_await_enabled (st : bg_state) : bg_state :=
  BgState (funcs st) (stale_funcs st) (max_func st) (cli_count st)
          (cond_signals st) (bool_decide (0 < cli_count st)).

(** The state set up by [bg_man_pthreads_init]. *)
Definition bg_man_pthreads_init : bg_state :=
  BgState (replicate MAX_FUNCS NULL) (replicate MAX_FUNCS NULL) 0%nat 0 0%nat false.

(** Reading cell [i] of an array of [MAX_FUNCS] cells.  The C code reads
    [funcs[MAX_FUNCS]] and [stale_funcs[MAX_FUNCS]] in two of its loops;
    such a read yields whatever word lies behind the array, which the
    caller of the model supplies as [past]. *)
Definition read_cell (a : list bg_func) (past : bg_func) (i : nat) : bg_func :=
  default past (a !! i).

(** Storing into cell [i]; there is no cell to store to past the end. *)
Definition store_cell (a : list bg_func) (i : nat) (v : bg_func) : option (list bg_func) :=
  if bool_decide (i < length a)%nat then Some (<[i:=v]> a) else None.

(** ** The interrupt gate *)

(** [bg_man_pthreads_disable_interrupts]: [cli_count++]. *)
Definition bg_man_pthreads_disable_interrupts (st : bg_state) : bg_state :=
  set_cli_count (wrap_int (cli_count st + 1)) st.

(** [bg_man_pthreads_enable_interrupts]:
    [if (--cli_count == 0) pthread_cond_signal (&cli_cond);] *)
Definition bg_man_pthreads_enable_interrupts (st : bg_state) : bg_state :=
  let st1 := set_cli_count (wrap_int (cli_count st - 1)) st in
  if bool_decide (cli_count st1 = 0) then pthread_cond_signal st1 else st1.

(** [bg_man_pthreads_interrupts_disabled]: [return cli_count;] *)
Definition bg_man_pthreads_interrupts_disabled (st : bg_state) : Z :=
  cli_count st.

(** A C integer used as a truth value. *)
Definition c_true (z : Z) : bool := negb (z =? 0).

Inductive gate_call : Type := CallDisable | CallEnable.

Definition gate_step (st : bg_state) (c : gate_call) : bg_state :=
  match c with
  | CallDisable => bg_man_pthreads_disable_interrupts st
  | CallEnable => bg_man_pthreads_enable_interrupts st
  end.

Definition run_gate (calls : list gate_call) (st : bg_state) : bg_state :=
  fold_left gate_step calls st.

Definition is_disable (c : gate_call) : bool :=
  match c with CallDisable => true | CallEnable => false end.

Definition disables (calls : list gate_call) : nat :=
  length (filter (λ c, is_disable c = true) calls).

Definition enables (calls : list gate_call) : nat :=
  length (filter (λ c, is_disable c = false) calls).

(** ** The callback table *)

Definition is_set (f : bg_func) : bool :=
  match f with Some _ => true | None => false end.

(** [for (i = 0; i < max_func && funcs[i] != f; i++);]
    started at [i] with [fuel] passes left; the result is the final [i].
    The loop is entered with [fuel = max_func - i], and leaves by its own
    condition before the fuel is used up. *)
Fixpoint find_func (fs : list bg_func) (mf : nat) (f : bg_func) (fuel i : nat) : nat :=
  if bool_decide (i < mf)%nat && negb (bool_decide (fs !!! i = f)) then
    match fuel with
    | O => i
    | S k => find_func fs mf f k (S i)
    end
  else i.

(** [do { max_func--; } while ((max_func > 0) && !funcs[max_func-1]);]
    entered with [max_func = mf]; the result is the final [max_func].
    It is only entered when [max_func] is [i+1], hence positive. *)
Fixpoint shrink_max_func (fs : list bg_func) (mf : nat) : nat :=
  match mf with
  | O => O
  | S m =>
      if bool_decide (0 < m)%nat && negb (is_set (fs !!! (m - 1)%nat))
      then shrink_max_func fs m
      else m
  end.

(** [really_unregister_func (f)]: the return value and the new state. *)
Definition really_unregister_func (f : bg_func) (st : bg_state) : Z * bg_state :=
  let i := find_func (funcs st) (max_func st) f (max_func st) 0 in
  if bool_decide (i = max_func st) then (-1, st)
  else
    let st1 := set_funcs (<[i:=NULL]> (funcs st)) st in
    let st2 :=
      if bool_decide (S i = max_func st1)
      then set_max_func (shrink_max_func (funcs st1) (max_func st1)) st1
      else st1 in
    (0, st2).

(** [for (i = 0; funcs[i] && i < MAX_FUNCS; i++);]
    started at [i]: the final [i], and the indices at which [funcs] was
    read, in order.  [funcs[i]] is read before [i] is compared with
    [MAX_FUNCS]. *)
Fixpoint first_free (fs : list bg_func) (past : bg_func) (fuel i : nat) : nat * list nat :=
  if is_set (read_cell fs past i) && bool_decide (i < MAX_FUNCS)%nat then
    match fuel with
    | O => (i, [i])
    | S k => let '(r, t) := first_free fs past k (S i) in (r, i :: t)
    end
  else (i, [i]).

(** [bg_man_pthreads_register_func (f)]: the return value and the new
    state. *)
Definition bg_man_pthreads_register_func (past : bg_func) (f : bg_func) (st : bg_state)
  : Z * bg_state :=
  let st0 := bg_man_pthreads_disable_interrupts st in
  let i := (first_free (funcs st0) past MAX_FUNCS 0).1 in
  let '(ret, st1) :=
    if bool_decide (i = MAX_FUNCS) then (-1, st0)
    else
      let st' := set_funcs (<[i:=f]> (funcs st0)) st0 in
      (0, if bool_decide (i = max_func st') then set_max_func (S (max_func st')) st' else st') in
  (ret, bg_man_pthreads_enable_interrupts st1).


(** The indices of [funcs] read by the scan of a registration. *)
Definition register_reads (past : bg_func) (st : bg_state) : list nat :=
  (first_free (funcs st) past MAX_FUNCS 0).2.

(** ** The queue of stale callbacks *)

(** [for (i = 0; i < MAX_FUNCS; i++)
       if (!stale_funcs[i]) { stale_funcs[i] = f; break; }]
    started at [i]: the new contents of [stale_funcs]. *)
Fixpoint put_stale (q : list bg_func) (f : bg_func) (fuel i : nat) : list bg_func :=
  if bool_decide (i < MAX_FUNCS)%nat then
    if is_set (q !!! i) then
      match fuel with
      | O => q
      | S k => put_stale q f k (S i)
      end
    else <[i:=f]> q
  else q.

(** [bg_man_pthreads_unregister_func (f)].  [busy] is the outcome of
    [pthread_mutex_trylock (&cli_mutex) == EBUSY]. *)
Definition bg_man_pthreads_unregister_func (busy : bool) (f : bg_func) (st : bg_state)
  : Z * bg_state :=
  if busy then
    let i := find_func (funcs st) (max_func st) f (max_func st) 0 in
    if bool_decide (i = max_func st) then (-1, st)
    else (0, set_stale_funcs (put_stale (stale_funcs st) f MAX_FUNCS 0) st)
  else really_unregister_func f st.

(** The driver thread removing the stale functions:
    [for (n = 0; stale_funcs[n]; n++) {
        really_unregister_func (stale_funcs[n]);
        stale_funcs[n] = NULL; }]
    started at [n]: the state when the loop ends, and the indices at
    which [stale_funcs] was read.  The state is [None] when the loop
    goes on to store past the end of the array. *)
Fixpoint reap_stale (past : bg_func) (fuel n : nat) (st : bg_state)
  : option bg_state * list nat :=
  match read_cell (stale_funcs st) past n with
  | None => (Some st, [n])
  | Some h =>
      let st1 := (really_unregister_func (Some h) st).2 in
      match store_cell (stale_funcs st1) n NULL with
      | None => (None, [n])
      | Some q =>
          match fuel with
          | O => (None, [n])
          | S k =>
              let '(r, t) := reap_stale past k (S n) (set_stale_funcs q st1) in
              (r, n :: t)
          end
      end
  end.

(** Immediate removal of each callback of [hs] in turn, whatever the
    calls return. *)
Definition unregister_each (hs : list handle) (st : bg_state) : bg_state :=
  foldl (λ s h, (really_unregister_func (Some h) s).2) st hs.

Definition threadfunc_reap (past : bg_func) (st : bg_state) : option bg_state * list nat :=
  reap_stale past MAX_FUNCS 0 st.

(** ** Sequences of calls *)

Inductive op : Type :=
  | Register (past f : bg_func)
  | Unregister (busy : bool) (f : bg_func)
  | Reap (past : bg_func)
  | Gate (c : gate_call).

Definition exec (o : op) (st : bg_state) : option bg_state :=
  match o with
  | Register past f => Some (bg_man_pthreads_register_func past f st).2
  | Unregister busy f => Some (bg_man_pthreads_unregister_func busy f st).2
  | Reap past => (threadfunc_reap past st).1
  | Gate c => Some (gate_step st c)
  end.

Fixpoint run (ops : list op) (st : bg_state) : option bg_state :=
  match ops with
  | [] => Some st
  | o :: ops' =>
      match exec o st with
      | Some st' => run ops' st'
      | None => None
      end
  end.

(** Calls on the table alone: registration and immediate removal. *)
Inductive table_call : Type :=
  | CallRegister (past f : bg_func)
  | CallReallyUnregister (f : bg_func).

Definition table_step (st : bg_state) (c : table_call) : bg_state :=
  match c with
  | CallRegister past f => (bg_man_pthreads_register_func past f st).2
  | CallReallyUnregister f => (really_unregister_func f st).2
  end.

Definition run_table (calls : list table_call) (st : bg_state) : bg_state :=
  fold_left table_step calls st.

(** Every registration in [ops], run from [st], is of a callback that no
    cell of [funcs] holds at that time. *)
Fixpoint registers_fresh (ops : list op) (st : bg_state) : bool :=
  match ops with
  | [] => true
  | o :: ops' =>
      match o with
      | Register _ (Some h) => bool_decide (Some h ∉ funcs st)
      | _ => true
      end &&
      match exec o st with
      | Some st' => registers_fresh ops' st'
      | None => true
      end
  end.

(** Sixteen registrations of sixteen callbacks. *)
Definition fill_table : list op :=
  map (λ k, Register NULL (Some (Pos.of_nat (S k)))) (seq 0 MAX_FUNCS).

(** One registration, then sixteen removals of that callback while
    [cli_mutex] is held elsewhere. *)
Definition fill_queue : list op :=
  Register NULL (Some 1%positive) :: replicate MAX_FUNCS (Unregister true (Some 1%positive)).

(** ** Predicates on states *)

Definition bg_wf (st : bg_state) : Prop :=
  length (funcs st) = MAX_FUNCS ∧ length (stale_funcs st) = MAX_FUNCS ∧
  (max_func st ≤ MAX_FUNCS)%nat.

(** Every cell from [max_func] on is empty. *)
Definition trailing_empty (st : bg_state) : Prop :=
  ∀ i, (max_func st ≤ i)%nat → (i < MAX_FUNCS)%nat → funcs st !! i = Some NULL.

(** [f] is in a cell below [max_func]. *)
Definition registered (f : bg_func) (st : bg_state) : Prop :=
  ∃ i, (i < max_func st)%nat ∧ funcs st !! i = Some f.

(** [i] is the first cell of [a] that is empty. *)
Definition first_empty (a : list bg_func) (i : nat) : Prop :=
  a !! i = Some NULL ∧ ∀ j, (j < i)%nat → ∃ h, a !! j = Some (Some h).

(** [i] is the first cell of [a], below [mf], that holds [f]. *)
Definition first_holding (a : list bg_func) (mf : nat) (f : bg_func) (i : nat) : Prop :=
  (i < mf)%nat ∧ a !! i = Some f ∧ ∀ j, (j < i)%nat → a !! j ≠ Some f.

(** An array whose first cells hold the callbacks [hs], in order, and
    whose other cells are empty. *)
Definition packed (hs : list handle) : list bg_func :=
  (Some <$> hs) ++ replicate (MAX_FUNCS - length hs) NULL.

(** The occupied cells of [stale_funcs] come first: the queue ends at
    its first empty cell. *)
Definition queue_ok (st : bg_state) : Prop :=
  ∃ hs, (length hs ≤ MAX_FUNCS)%nat ∧ stale_funcs st = packed hs.

(** The array [q] as the reaping loop finds it at index [n]: empty below
    [n], then the callbacks [hs], then empty. *)
Definition queue_from (n : nat) (hs : list handle) (q : list bg_func) : Prop :=
  length q = MAX_FUNCS ∧
  (∀ j, (j < n)%nat → q !! j = Some NULL) ∧
  (∀ j h, hs !! j = Some h → q !! (n + j)%nat = Some (Some h)) ∧
  (∀ j, (n + length hs ≤ j)%nat → (j < MAX_FUNCS)%nat → q !! j = Some NULL).

(** What holds of every state the calls can produce. *)
Definition bg_inv (st : bg_state) : Prop :=
  bg_wf st ∧ trailing_empty st ∧ queue_ok st.

Definition all_occupied (a : list bg_func) : Prop :=
  ∀ i, (i < MAX_FUNCS)%nat → ∃ h, a !! i = Some (Some h).

(** The callbacks held in the cells of [a], in cell order. *)
Definition occupants (a : list bg_func) : list handle := omap id a.

(** No callback is in two cells. *)
Definition at_most_once (st : bg_state) : Prop :=
  ∀ i j h, funcs st !! i = Some (Some h) → funcs st !! j = Some (Some h) → i = j.

(** ** Scaling an interval to timer ticks *)

(** [unsigned long], taken as 64 bits wide. *)
Definition wrap_ulong (z : Z) : Z := z mod 2 ^ 64.

Section Ticks.

(** [TIMERS_PER_SECOND] is defined in Allegro's headers, not in this
    file; the scaling is written for any value of it. *)
Variable TIMERS_PER_SECOND : Z.

(** [INT_MAX/(TIMERS_PER_SECOND/100)] *)
Definition chunk_limit : Z := INT_MAX ÷ (TIMERS_PER_SECOND ÷ 100).

(** One pass of the body of [while (interval)]:
    [i = MIN (interval, INT_MAX/(TIMERS_PER_SECOND/100));
     interval -= i;
     i = i * (TIMERS_PER_SECOND/100) / 10000L;]
    giving the new [interval] and the final [i]. *)
Definition tick_pass (interval : Z) : Z * Z :=
  let i := Z.min interval (wrap_ulong chunk_limit) in
  (wrap_ulong (interval - i),
   wrap_ulong (i * wrap_ulong (TIMERS_PER_SECOND ÷ 100)) ÷ 10000).

(** The values of [i] over the passes of [while (interval)], or [None]
    when [fuel] passes do not bring [interval] to zero. *)
Fixpoint tick_batches (fuel : nat) (interval : Z) : option (list Z) :=
  if interval =? 0 then Some []
  else
    match fuel with
    | O => None
    | S k =>
        let '(rest, i) := tick_pass interval in
        match tick_batches k rest with
        | Some bs => Some (i :: bs)
        | None => None
        end
    end.

(** One sample: an [interval] of microseconds between two readings of
    the clock. *)
Definition sample_batches (interval : Z) : option (list Z) :=
  tick_batches (Z.to_nat interval) interval.

(** A sequence of samples, one after the other. *)
Fixpoint samples_batches (samples : list Z) : option (list Z) :=
  match samples with
  | [] => Some []
  | t :: ts =>
      match sample_batches t, samples_batches ts with
      | Some b, Some bs => Some (b ++ bs)
      | _, _ => None
      end
  end.

(** The ticks in [t] microseconds, scaled in one step. *)
Definition direct_ticks (t : Z) : Z := t * (TIMERS_PER_SECOND ÷ 100) ÷ 10000.

End Ticks.

Definition sumZ (l : list Z) : Z := foldr Z.add 0 l.

(** The value Allegro gives [TIMERS_PER_SECOND]: the rate of the PC
    timer chip, [1193181L]. *)
Definition ALLEGRO_TIMERS_PER_SECOND : Z := 1193181.

(** ** More on states and sequences of calls *)

(** [max_func] is the comment's "highest+1 used entry": zero, or one
    more than the index of an occupied cell. *)
Definition top_occupied (st : bg_state) : Prop :=
  max_func st = 0%nat ∨ ∃ h, funcs st !! (max_func st - 1)%nat = Some (Some h).

(** No registration in [ops] is of a null pointer. *)
Definition registers_nonnull (ops : list op) : bool :=
  forallb (λ o, match o with Register _ None => false | _ => true end) ops.

(** Every run of the reaping loop in [ops], run from [st], finds an
    empty cell in [stale_funcs]. *)
Fixpoint reaps_with_room (ops : list op) (st : bg_state) : bool :=
  match ops with
  | [] => true
  | o :: ops' =>
      match o with
      | Reap _ => bool_decide (length (occupants (stale_funcs st)) < MAX_FUNCS)%nat
      | _ => true
      end &&
      match exec o st with
      | Some st' => reaps_with_room ops' st'
      | None => true
      end
  end.

(** The reaping loop is not run in [ops]. *)
Definition reap_free (ops : list op) : bool :=
  forallb (λ o, match o with Reap _ => false | _ => true end) ops.


(** The ticks of one pass over a full chunk, at the rate [R]. *)
Definition full_chunk_ticks (R : Z) : Z := chunk_limit R * (R ÷ 100) / 10000.

(** ** One pass of the driver thread *)

Section DriverPass.

(** What a call [funcs[n] (1)] does to the variables of this file. *)
Variable callback : handle → bg_state → bg_state.

(** [for (n = 0; n < max_func; n++) if (funcs[n]) funcs[n](1);]
    started at [n]: the state when the loop ends and the callbacks
    called, in order; [None] when [fuel] passes do not end the loop. *)
Fixpoint call_callbacks (fuel n : nat) (st : bg_state) : option (bg_state * list handle) :=
  if bool_decide (n < max_func st)%nat then
    match fuel with
    | O => None
    | S k =>
        match funcs st !!! n with
        | Some h =>
            match call_callbacks k (S n) (callback h st) with
            | Some (st', called) => Some (st', h :: called)
            | None => None
            end
        | None => call_callbacks k (S n) st
        end
    end
  else Some (st, []).

(** How a pass of the body of [while (interval)] goes: the thread is
    left waiting on [cli_cond], or it calls the callbacks and removes
    the stale ones. *)
Inductive pass_result : Type :=
  | PassWaits (st : bg_state)
  | PassEnds (st : option bg_state) (called : list handle).

(** The body of [while (interval)] from [pthread_mutex_lock (&cli_mutex)]
    on: wait until interrupts are enabled, call all the callbacks, remove
    the stale functions. *)
Definition threadfunc_pass (past : bg_func) (st : bg_state) : option pass_result :=
  let st1 := driver_await_enabled st in
  if driver_waiting st1 then Some (PassWaits st1)
  else
    match call_callbacks MAX_FUNCS 0 st1 with
    | Some (st2, called) => Some (PassEnds (threadfunc_reap past st2).1 called)
    | None => None
    end.

End DriverPass.



(** The callbacks in the cells below [max_func], in cell order. *)
Definition registered_callbacks (st : bg_state) : list handle :=
  occupants (take (max_func st) (funcs st)).

(** ** One sample of the driver thread *)

(** How the loop [while (interval)] goes for one sample: the interval
    is used up, or the thread is left waiting on [cli_cond], or the
    reaping loop stores past the end of [stale_funcs], or [fuel] passes
    do not end it.  [called] lists the callbacks called, in order. *)
Inductive sample_result : Type :=
  | SampleEnds (st : bg_state) (called : list handle)
  | SampleWaits (st : bg_state) (called : list handle)
  | SampleOverrun (called : list handle)
  | SampleOutOfFuel.

Section DriverSample.

Variable TIMERS_PER_SECOND : Z.
Variable callback : handle → bg_state → bg_state.

(** [while (interval) { ... }] with its body: the chunk is taken off
    [interval] and scaled into [i], and the callbacks are called - with
    the argument [1], [i] not being used again. *)
Fixpoint threadfunc_sample (past : bg_func) (fuel : nat) (interval : Z) (st : bg_state)
  : sample_result :=
  if interval =? 0 then SampleEnds st []
  else
    match fuel with
    | O => SampleOutOfFuel
    | S k =>
        let '(rest, _) := tick_pass TIMERS_PER_SECOND interval in
        match threadfunc_pass callback past st with
        | Some (PassWaits st1) => SampleWaits st1 []
        | Some (PassEnds (Some st') called) =>
            match threadfunc_sample past k rest st' with
            | SampleEnds s c => SampleEnds s (called ++ c)
            | SampleWaits s c => SampleWaits s (called ++ c)
            | SampleOverrun c => SampleOverrun (called ++ c)
            | SampleOutOfFuel => SampleOutOfFuel
            end
        | Some (PassEnds None called) => SampleOverrun called
        | None => SampleOutOfFuel
        end
    end.

End DriverSample.

(** A callback that leaves the variables of this file alone, but for
    the condition variable. *)
Definition quiet_callback (callback : handle → bg_state → bg_state) : Prop :=
  ∀ h st, funcs (callback h st) = funcs st ∧ max_func (callback h st) = max_func st ∧
          stale_funcs (callback h st) = stale_funcs st ∧
          cli_count (callback h st) = cli_count st.

(** * Properties *)

(** ** The interrupt gate *)

Lemma wrap_int_range z : int_range (wrap_int z).
Proof.
  unfold int_range, wrap_int, INT_MIN, INT_MAX.
  pose proof (Z.mod_pos_bound (z + 2 ^ 31) (2 ^ 32) ltac:(lia)). lia.
Qed.

Lemma wrap_int_small z : int_range z → wrap_int z = z.
Proof.
  unfold int_range, wrap_int, INT_MIN, INT_MAX. intros Hz.
  rewrite Z.mod_small; lia.
Qed.

Lemma wrap_int_add_l a b : wrap_int (wrap_int a + b) = wrap_int (a + b).
Proof.
  unfold wrap_int. f_equal.
  replace ((a + 2 ^ 31) mod 2 ^ 32 - 2 ^ 31 + b + 2 ^ 31)
    with ((a + 2 ^ 31) mod 2 ^ 32 + b) by lia.
  rewrite Zplus_mod_idemp_l. f_equal. lia.
Qed.

Lemma disables_cons c calls :
  disables (c :: calls) = ((if is_disable c then 1 else 0) + disables calls)%nat.
Proof. unfold disables. destruct c; reflexivity. Qed.

Lemma enables_cons c calls :
  enables (c :: calls) = ((if is_disable c then 0 else 1) + enables calls)%nat.
Proof. unfold enables. destruct c; reflexivity. Qed.

Lemma cli_count_enable st :
  cli_count (bg_man_pthreads_enable_interrupts st) = wrap_int (cli_count st - 1).
Proof.
  unfold bg_man_pthreads_enable_interrupts. case_bool_decide; reflexivity.
Qed.

Lemma cli_count_gate_step st c :
  cli_count (gate_step st c) =
  wrap_int (cli_count st + (if is_disable c then 1 else -1)).
Proof. destruct c; simpl; [reflexivity | apply cli_count_enable]. Qed.

(** The count after a sequence of calls is the count before, plus the
    disables, minus the enables, as an [int]. *)
Lemma cli_count_run_gate calls : ∀ st,
  wrap_int (cli_count (run_gate calls st)) =
  wrap_int (cli_count st + Z.of_nat (disables calls) - Z.of_nat (enables calls)).
Proof.
  induction calls as [|c calls IH]; intros st.
  - simpl. f_equal. unfold disables, enables. simpl. lia.
  - change (run_gate (c :: calls) st) with (run_gate calls (gate_step st c)).
    rewrite IH, cli_count_gate_step, disables_cons, enables_cons.
    rewrite <- Z.add_sub_assoc, wrap_int_add_l. f_equal.
    destruct c; simpl is_disable; cbv iota; lia.
Qed.

Lemma cli_count_run_gate_range calls : ∀ st,
  int_range (cli_count st) → int_range (cli_count (run_gate calls st)).
Proof.
  induction calls as [|c calls IH]; intros st Hst; [exact Hst|].
  change (run_gate (c :: calls) st) with (run_gate calls (gate_step st c)).
  apply IH. rewrite cli_count_gate_step. apply wrap_int_range.
Qed.

(** C1: after any sequence of calls of disable and enable made from a
    state with the count at zero, with N disables and M enables, M ≤ N
    and N - M within [int], [bg_man_pthreads_interrupts_disabled] returns
    a true (non-zero) value exactly when N > M; and an enable that finds
    the count at one leaves it at zero and signals [cli_cond], so that
    the driver thread, which waits while the count is positive, is no
    longer waiting; an enable that leaves the count away from zero does
    not signal. *)
Theorem gate_counts_nested_disables (calls : list gate_call) (st0 : bg_state) :
  cli_count st0 = 0 →
  (enables calls ≤ disables calls)%nat →
  Z.of_nat (disables calls) - Z.of_nat (enables calls) ≤ INT_MAX →
  (c_true (bg_man_pthreads_interrupts_disabled (run_gate calls st0)) = true
     ↔ (enables calls < disables calls)%nat) ∧
  (∀ st, cli_count st = 1 →
     cli_count (bg_man_pthreads_enable_interrupts st) = 0 ∧
     cond_signals (bg_man_pthreads_enable_interrupts st) = S (cond_signals st) ∧
     driver_waiting (bg_man_pthreads_enable_interrupts st) = false ∧
     driver_waiting (driver_await_enabled st) = true ∧
     driver_waiting (bg_man_pthreads_enable_interrupts (driver_await_enabled st)) = false) ∧
  (∀ st, cli_count (bg_man_pthreads_enable_interrupts st) ≠ 0 →
     cond_signals (bg_man_pthreads_enable_interrupts st) = cond_signals st).
Proof.
  intros H0 HMN Hmax.
  assert (Hc : cli_count (run_gate calls st0) =
               Z.of_nat (disables calls) - Z.of_nat (enables calls)).
  { rewrite <- (wrap_int_small (cli_count (run_gate calls st0))).
    - rewrite cli_count_run_gate, H0. apply wrap_int_small.
      unfold int_range, INT_MIN. lia.
    - apply cli_count_run_gate_range. rewrite H0. unfold int_range, INT_MIN, INT_MAX. lia. }
  split; [|split].
  - unfold bg_man_pthreads_interrupts_disabled, c_true. rewrite Hc.
    destruct (Z.eqb_spec (Z.of_nat (disables calls) - Z.of_nat (enables calls)) 0);
      simpl; split; intros; try discriminate; try lia; reflexivity.
  - intros st Hst. unfold bg_man_pthreads_enable_interrupts, driver_await_enabled.
    cbn [cli_count set_cli_count]. rewrite Hst. cbn. auto.
  - intros st. unfold bg_man_pthreads_enable_interrupts.
    case_bool_decide as Hz; [|reflexivity]. intros Hne. exfalso. apply Hne. exact Hz.
Qed.

Lemma gate_counts_nested_disables_witness :
  cli_count bg_man_pthreads_init = 0 ∧
  (enables [CallDisable; CallDisable; CallEnable]
     ≤ disables [CallDisable; CallDisable; CallEnable])%nat ∧
  (c_true (bg_man_pthreads_interrupts_disabled
             (run_gate [CallDisable; CallDisable; CallEnable] bg_man_pthreads_init)) = true
     ↔ (enables [CallDisable; CallDisable; CallEnable]
          < disables [CallDisable; CallDisable; CallEnable])%nat).
Proof.
  assert (H0 : cli_count bg_man_pthreads_init = 0) by reflexivity.
  assert (H1 : (enables [CallDisable; CallDisable; CallEnable]
                  ≤ disables [CallDisable; CallDisable; CallEnable])%nat)
    by (vm_compute; lia).
  assert (H2 : Z.of_nat (disables [CallDisable; CallDisable; CallEnable])
               - Z.of_nat (enables [CallDisable; CallDisable; CallEnable]) ≤ INT_MAX)
    by (vm_compute; discriminate).
  split; [exact H0 | split; [exact H1 |]].
  exact (proj1 (gate_counts_nested_disables
                  [CallDisable; CallDisable; CallEnable] bg_man_pthreads_init H0 H1 H2)).
Defined.

(** ** Reading the arrays *)

Lemma total_lookup_inside (a : list bg_func) i :
  (i < length a)%nat → a !! i = Some (a !!! i).
Proof. apply list_lookup_lookup_total_lt. Qed.

Lemma total_lookup_handle (a : list bg_func) i h :
  a !!! i = Some h ↔ a !! i = Some (Some h).
Proof.
  rewrite list_lookup_total_alt. destruct (a !! i) as [x|]; simpl; split.
  - intros ->. reflexivity.
  - intros [= ->]. reflexivity.
  - discriminate.
  - discriminate.
Qed.

Lemma read_cell_inside (a : list bg_func) past i x :
  a !! i = Some x → read_cell a past i = x.
Proof. unfold read_cell. intros ->. reflexivity. Qed.

Lemma read_cell_past (a : list bg_func) past i :
  (length a ≤ i)%nat → read_cell a past i = past.
Proof. unfold read_cell. intros H. rewrite lookup_ge_None_2; [reflexivity | exact H]. Qed.

Lemma is_set_true (f : bg_func) : is_set f = true ↔ ∃ h, f = Some h.
Proof.
  destruct f as [h|]; simpl; split; eauto; try discriminate.
  intros [? ?]; discriminate.
Qed.

Lemma is_set_false (f : bg_func) : is_set f = false ↔ f = NULL.
Proof. destruct f; simpl; split; eauto; discriminate. Qed.

(** ** The search loop of the removal paths *)

Lemma find_func_spec fs mf f : ∀ fuel i,
  (mf ≤ fuel + i)%nat → (i ≤ mf)%nat →
  (i ≤ find_func fs mf f fuel i ≤ mf)%nat ∧
  (∀ j, (i ≤ j < find_func fs mf f fuel i)%nat → fs !!! j ≠ f) ∧
  ((find_func fs mf f fuel i < mf)%nat → fs !!! (find_func fs mf f fuel i) = f).
Proof.
  induction fuel as [|k IH]; intros i Hfuel Hi; simpl.
  - assert (i = mf) as -> by lia.
    rewrite bool_decide_eq_false_2 by lia. simpl.
    repeat split; try lia.
  - case_bool_decide as Hlt; simpl.
    + case_bool_decide as Heq; simpl.
      * repeat split; try lia. intros _. exact Heq.
      * destruct (IH (S i) ltac:(lia) ltac:(lia)) as (Hr & Hne & Hat).
        split; [lia|]. split; [|exact Hat].
        intros j Hj. destruct (decide (j = i)) as [->|Hji]; [exact Heq|].
        apply Hne. lia.
    + repeat split; try lia.
Qed.

(** The search ends on the first cell below [max_func] that holds [f]. *)
Lemma find_func_found fs mf f i :
  first_holding fs mf f i → find_func fs mf f mf 0 = i.
Proof.
  intros (Hi & Hat & Hmin).
  destruct (find_func_spec fs mf f mf 0 ltac:(lia) ltac:(lia)) as (Hr & Hne & Hfound).
  set (r := find_func fs mf f mf 0) in *.
  assert (Hi' : fs !!! i = f) by (apply list_lookup_total_correct; exact Hat).
  destruct (lt_eq_lt_dec r i) as [[Hlt|Heq]|Hgt]; [|exact Heq|].
  - exfalso. apply (Hmin r Hlt). rewrite <- (Hfound ltac:(lia)).
    apply total_lookup_inside. apply lookup_lt_Some in Hat. lia.
  - exfalso. apply (Hne i); [lia | exact Hi'].
Qed.

(** The search ends at [max_func] when no cell below it holds [f]. *)
Lemma find_func_absent fs mf f :
  (mf ≤ length fs)%nat →
  (∀ j, (j < mf)%nat → fs !! j ≠ Some f) → find_func fs mf f mf 0 = mf.
Proof.
  intros Hlen Habs.
  destruct (find_func_spec fs mf f mf 0 ltac:(lia) ltac:(lia)) as (Hr & _ & Hfound).
  set (r := find_func fs mf f mf 0) in *.
  destruct (decide (r = mf)) as [Heq|Hne]; [exact Heq|].
  exfalso. apply (Habs r ltac:(lia)). rewrite <- (Hfound ltac:(lia)).
  apply total_lookup_inside. lia.
Qed.

Lemma find_func_absent_handle fs mf h :
  Some h ∉ fs → find_func fs mf (Some h) mf 0 = mf.
Proof.
  intros Habs.
  destruct (find_func_spec fs mf (Some h) mf 0 ltac:(lia) ltac:(lia)) as (Hr & _ & Hfound).
  set (r := find_func fs mf (Some h) mf 0) in *.
  destruct (decide (r = mf)) as [Heq|Hne]; [exact Heq|].
  exfalso. apply Habs. apply (list_elem_of_lookup_2 _ r).
  apply total_lookup_handle. apply Hfound. lia.
Qed.

(** A registered callback has a first cell. *)
Lemma registered_first_holding f st :
  registered f st → ∃ i, first_holding (funcs st) (max_func st) f i.
Proof.
  intros (i0 & Hi0 & Hat0).
  destruct (find_func_spec (funcs st) (max_func st) f (max_func st) 0
              ltac:(lia) ltac:(lia)) as (Hr & Hne & Hfound).
  set (r := find_func (funcs st) (max_func st) f (max_func st) 0) in *.
  assert (Hlt : (r < max_func st)%nat).
  { destruct (decide (r = max_func st)) as [Heq|]; [|lia].
    exfalso. apply (Hne i0); [lia|]. apply list_lookup_total_correct. exact Hat0. }
  assert (Hri0 : (r ≤ i0)%nat).
  { destruct (le_lt_dec r i0); [assumption|]. exfalso.
    apply (Hne i0); [lia|]. apply list_lookup_total_correct. exact Hat0. }
  exists r. split; [exact Hlt|]. split.
  - rewrite <- (Hfound Hlt). apply total_lookup_inside.
    apply lookup_lt_Some in Hat0. lia.
  - intros j Hj Hatj. apply (Hne j); [lia|]. apply list_lookup_total_correct. exact Hatj.
Qed.

(** ** Lowering [max_func] *)

Lemma shrink_max_func_spec fs : ∀ mf,
  (0 < mf)%nat →
  (shrink_max_func fs mf < mf)%nat ∧
  (∀ j, (shrink_max_func fs mf ≤ j)%nat → (S j < mf)%nat → fs !!! j = NULL) ∧
  (shrink_max_func fs mf = 0%nat ∨
   ∃ h, fs !!! (shrink_max_func fs mf - 1)%nat = Some h).
Proof.
  induction mf as [|m IH]; intros Hpos; [lia|]. simpl.
  case_bool_decide as Hm; simpl.
  - destruct (is_set (fs !!! (m - 1)%nat)) eqn:Hset; simpl.
    + split; [lia|]. split; [intros j ? ?; lia|].
      right. apply is_set_true. exact Hset.
    + destruct (IH Hm) as (Hlt & Hnull & Hstop).
      split; [lia|]. split; [|exact Hstop].
      intros j Hj1 Hj2. destruct (decide (S j = m)) as [Heq|Hne].
      * apply is_set_false. replace j with (m - 1)%nat by lia. exact Hset.
      * apply Hnull; lia.
  - split; [lia|]. split; [intros j ? ?; lia|]. left. lia.
Qed.

(** ** Immediate removal *)

Lemma really_unregister_func_absent f st :
  bg_wf st → ¬ registered f st → really_unregister_func f st = (-1, st).
Proof.
  intros (Hlen & _ & Hmf) Habs. unfold really_unregister_func.
  rewrite find_func_absent.
  - rewrite bool_decide_eq_true_2; reflexivity.
  - lia.
  - intros j Hj Hat. apply Habs. exists j. auto.
Qed.

Lemma really_unregister_func_found f st i :
  first_holding (funcs st) (max_func st) f i →
  really_unregister_func f st =
  (0, if bool_decide (S i = max_func st)
      then set_max_func (shrink_max_func (<[i:=NULL]> (funcs st)) (max_func st))
                        (set_funcs (<[i:=NULL]> (funcs st)) st)
      else set_funcs (<[i:=NULL]> (funcs st)) st).
Proof.
  intros Hfirst. unfold really_unregister_func.
  rewrite (find_func_found _ _ _ _ Hfirst).
  destruct Hfirst as (Hi & _ & _).
  rewrite bool_decide_eq_false_2 by lia. reflexivity.
Qed.

Lemma really_unregister_func_cases f st :
  bg_wf st →
  really_unregister_func f st = (-1, st) ∧ ¬ registered f st ∨
  ∃ i, first_holding (funcs st) (max_func st) f i ∧
       (really_unregister_func f st).1 = 0.
Proof.
  intros Hwf.
  destruct (decide (find_func (funcs st) (max_func st) f (max_func st) 0 = max_func st))
    as [Heq|Hne].
  - left. assert (Habs : ¬ registered f st).
    { intros Hreg. destruct (registered_first_holding _ _ Hreg) as (i & Hi).
      pose proof (find_func_found _ _ _ _ Hi) as Hfi. destruct Hi as (Hlt & _). lia. }
    split; [apply really_unregister_func_absent; assumption | exact Habs].
  - right. destruct Hwf as (Hlen & _ & Hmf).
    destruct (find_func_spec (funcs st) (max_func st) f (max_func st) 0
                ltac:(lia) ltac:(lia)) as (Hr & Hbefore & Hfound).
    set (r := find_func (funcs st) (max_func st) f (max_func st) 0) in *.
    assert (Hfirst : first_holding (funcs st) (max_func st) f r).
    { split; [lia|]. split.
      - rewrite <- (Hfound ltac:(lia)). apply total_lookup_inside. lia.
      - intros j Hj Hat. apply (Hbefore j); [lia|].
        apply list_lookup_total_correct. exact Hat. }
    exists r. split; [exact Hfirst|].
    rewrite (really_unregister_func_found _ _ _ Hfirst). reflexivity.
Qed.

(** ** The scan for a free cell *)

Lemma first_free_spec fs past : ∀ fuel i,
  length fs = MAX_FUNCS → (MAX_FUNCS ≤ fuel + i)%nat → (i ≤ MAX_FUNCS)%nat →
  (i ≤ (first_free fs past fuel i).1 ≤ MAX_FUNCS)%nat ∧
  (∀ j, (i ≤ j < (first_free fs past fuel i).1)%nat → ∃ h, fs !! j = Some (Some h)) ∧
  (((first_free fs past fuel i).1 < MAX_FUNCS)%nat →
     fs !! (first_free fs past fuel i).1 = Some NULL) ∧
  (first_free fs past fuel i).2 = seq i (S ((first_free fs past fuel i).1 - i)).
Proof.
  induction fuel as [|k IH]; intros i Hlen Hfuel Hi; cbn [first_free].
  - rewrite (bool_decide_eq_false_2 (i < MAX_FUNCS)%nat) by lia.
    rewrite andb_false_r. cbn [fst snd]. rewrite Nat.sub_diag.
    repeat split; try lia.
  - destruct (is_set (read_cell fs past i)) eqn:Hset; cbn [andb fst snd].
    + case_bool_decide as Hlt.
      * destruct (IH (S i) Hlen ltac:(lia) ltac:(lia)) as (Hr & Hocc & Hnull & Hreads).
        destruct (first_free fs past k (S i)) as [r t] eqn:Hff. cbn [fst snd] in *.
        split; [lia|]. split; [|split; [exact Hnull|]].
        -- intros j Hj. destruct (decide (j = i)) as [->|Hji]; [|apply Hocc; lia].
           apply is_set_true in Hset. destruct Hset as [h Hh]. exists h.
           rewrite <- Hh. unfold read_cell.
           rewrite (total_lookup_inside fs i) by lia. reflexivity.
        -- rewrite Hreads. replace (S (r - i)) with (S (S (r - S i))) by lia. reflexivity.
      * cbn [fst snd]. rewrite Nat.sub_diag. repeat split; try lia.
    + rewrite Nat.sub_diag. split; [lia|]. split; [intros j Hj; lia|].
      split; [|reflexivity]. intros Hlt. apply is_set_false in Hset.
      rewrite <- Hset. unfold read_cell.
      rewrite (total_lookup_inside fs i) by lia. reflexivity.
Qed.

Lemma first_free_empty fs past i :
  length fs = MAX_FUNCS → first_empty fs i →
  (first_free fs past MAX_FUNCS 0).1 = i ∧ (i < MAX_FUNCS)%nat.
Proof.
  intros Hlen (Hat & Hocc).
  destruct (first_free_spec fs past MAX_FUNCS 0 Hlen ltac:(lia) ltac:(lia))
    as (Hr & Hbelow & Hnull & _).
  set (r := (first_free fs past MAX_FUNCS 0).1) in *.
  assert (Hi : (i < MAX_FUNCS)%nat) by (apply lookup_lt_Some in Hat; lia).
  split; [|exact Hi].
  destruct (lt_eq_lt_dec r i) as [[Hlt|Heq]|Hgt]; [|exact Heq|].
  - destruct (Hocc r Hlt) as [h Hh]. rewrite (Hnull ltac:(lia)) in Hh. discriminate.
  - destruct (Hbelow i ltac:(lia)) as [h Hh]. rewrite Hat in Hh. discriminate.
Qed.

Lemma first_free_full fs past :
  length fs = MAX_FUNCS → all_occupied fs → (first_free fs past MAX_FUNCS 0).1 = MAX_FUNCS.
Proof.
  intros Hlen Hocc.
  destruct (first_free_spec fs past MAX_FUNCS 0 Hlen ltac:(lia) ltac:(lia))
    as (Hr & _ & Hnull & _).
  set (r := (first_free fs past MAX_FUNCS 0).1) in *.
  destruct (decide (r = MAX_FUNCS)) as [Heq|Hne]; [exact Heq|].
  destruct (Hocc r ltac:(lia)) as [h Hh]. rewrite (Hnull ltac:(lia)) in Hh. discriminate.
Qed.

(** Either a first empty cell exists or every cell is occupied. *)
Lemma first_empty_or_full fs past :
  length fs = MAX_FUNCS →
  (first_free fs past MAX_FUNCS 0).1 = MAX_FUNCS ∧ all_occupied fs ∨
  first_empty fs (first_free fs past MAX_FUNCS 0).1.
Proof.
  intros Hlen.
  destruct (first_free_spec fs past MAX_FUNCS 0 Hlen ltac:(lia) ltac:(lia))
    as (Hr & Hbelow & Hnull & _).
  set (r := (first_free fs past MAX_FUNCS 0).1) in *.
  destruct (decide (r = MAX_FUNCS)) as [Heq|Hne].
  - left. split; [exact Heq|]. intros j Hj. apply Hbelow. lia.
  - right. split; [apply Hnull; lia|]. intros j Hj. apply Hbelow. lia.
Qed.

(** ** Registration *)

Lemma funcs_enable st : funcs (bg_man_pthreads_enable_interrupts st) = funcs st.
Proof. unfold bg_man_pthreads_enable_interrupts. case_bool_decide; reflexivity. Qed.

Lemma stale_funcs_enable st :
  stale_funcs (bg_man_pthreads_enable_interrupts st) = stale_funcs st.
Proof. unfold bg_man_pthreads_enable_interrupts. case_bool_decide; reflexivity. Qed.

Lemma max_func_enable st : max_func (bg_man_pthreads_enable_interrupts st) = max_func st.
Proof. unfold bg_man_pthreads_enable_interrupts. case_bool_decide; reflexivity. Qed.

Lemma register_func_full past f st :
  bg_wf st → all_occupied (funcs st) →
  (bg_man_pthreads_register_func past f st).1 = -1 ∧
  funcs (bg_man_pthreads_register_func past f st).2 = funcs st ∧
  stale_funcs (bg_man_pthreads_register_func past f st).2 = stale_funcs st ∧
  max_func (bg_man_pthreads_register_func past f st).2 = max_func st.
Proof.
  intros (Hlen & _) Hocc. unfold bg_man_pthreads_register_func. cbv zeta.
  change (funcs (bg_man_pthreads_disable_interrupts st)) with (funcs st).
  rewrite (first_free_full _ past Hlen Hocc).
  rewrite bool_decide_eq_true_2 by reflexivity. cbn [fst snd].
  rewrite funcs_enable, stale_funcs_enable, max_func_enable. auto.
Qed.

Lemma register_func_free past f st i :
  bg_wf st → first_empty (funcs st) i →
  (bg_man_pthreads_register_func past f st).1 = 0 ∧
  funcs (bg_man_pthreads_register_func past f st).2 = <[i:=f]> (funcs st) ∧
  stale_funcs (bg_man_pthreads_register_func past f st).2 = stale_funcs st ∧
  max_func (bg_man_pthreads_register_func past f st).2 =
    (if bool_decide (i = max_func st) then S (max_func st) else max_func st).
Proof.
  intros (Hlen & _) Hfirst. unfold bg_man_pthreads_register_func. cbv zeta.
  change (funcs (bg_man_pthreads_disable_interrupts st)) with (funcs st).
  destruct (first_free_empty _ past _ Hlen Hfirst) as [-> Hi].
  rewrite bool_decide_eq_false_2 by lia. cbn [fst snd].
  rewrite funcs_enable, stale_funcs_enable, max_func_enable.
  cbn [set_funcs bg_man_pthreads_disable_interrupts set_cli_count max_func funcs stale_funcs].
  case_bool_decide; cbn; auto.
Qed.

(** ** The queue of stale callbacks *)

Lemma put_stale_first_empty q f k :
  length q = MAX_FUNCS → first_empty q k → ∀ fuel i,
  (i ≤ k)%nat → (MAX_FUNCS ≤ fuel + i)%nat → put_stale q f fuel i = <[k:=f]> q.
Proof.
  intros Hlen (Hat & Hocc).
  assert (Hk : (k < MAX_FUNCS)%nat) by (apply lookup_lt_Some in Hat; lia).
  induction fuel as [|n IH]; intros i Hi Hfuel; cbn [put_stale].
  - lia.
  - rewrite bool_decide_eq_true_2 by lia.
    destruct (decide (i = k)) as [->|Hne].
    + rewrite (list_lookup_total_correct _ _ _ Hat). reflexivity.
    + destruct (Hocc i ltac:(lia)) as [h Hh].
      rewrite (list_lookup_total_correct _ _ _ Hh). cbn [is_set].
      apply IH; lia.
Qed.

Lemma put_stale_full q f :
  all_occupied q → ∀ fuel i, put_stale q f fuel i = q.
Proof.
  intros Hocc. induction fuel as [|n IH]; intros i; cbn [put_stale];
    case_bool_decide as Hi; try reflexivity;
    destruct (Hocc i Hi) as [h Hh];
    rewrite (list_lookup_total_correct _ _ _ Hh); cbn [is_set]; [reflexivity | apply IH].
Qed.

Lemma put_stale_length q f : ∀ fuel i, length (put_stale q f fuel i) = length q.
Proof.
  induction fuel as [|n IH]; intros i; cbn [put_stale];
    case_bool_decide; try reflexivity;
    destruct (is_set (q !!! i)); try reflexivity; try apply length_insert.
  apply IH.
Qed.

(** ** Shapes of arrays *)

Lemma length_packed hs : (length hs ≤ MAX_FUNCS)%nat → length (packed hs) = MAX_FUNCS.
Proof.
  intros H. unfold packed. rewrite length_app, length_fmap, length_replicate. lia.
Qed.

Lemma lookup_packed_lt hs j h : hs !! j = Some h → packed hs !! j = Some (Some h).
Proof.
  intros Hj. unfold packed. apply lookup_app_l_Some.
  rewrite list_lookup_fmap, Hj. reflexivity.
Qed.

Lemma lookup_packed_ge hs j :
  (length hs ≤ j)%nat → (j < MAX_FUNCS)%nat → packed hs !! j = Some NULL.
Proof.
  intros H1 H2. unfold packed. rewrite lookup_app_r by (rewrite length_fmap; lia).
  rewrite length_fmap. apply lookup_replicate_2. lia.
Qed.

Lemma first_empty_packed hs :
  (length hs < MAX_FUNCS)%nat → first_empty (packed hs) (length hs).
Proof.
  intros Hlt. split; [apply lookup_packed_ge; lia|].
  intros j Hj. destruct (lookup_lt_is_Some_2 hs j Hj) as [h Hh].
  exists h. apply lookup_packed_lt. exact Hh.
Qed.

Lemma all_occupied_packed hs : length hs = MAX_FUNCS → all_occupied (packed hs).
Proof.
  intros Hlen j Hj. destruct (lookup_lt_is_Some_2 hs j ltac:(lia)) as [h Hh].
  exists h. apply lookup_packed_lt. exact Hh.
Qed.

Lemma packed_snoc hs h :
  (length hs < MAX_FUNCS)%nat → <[length hs:=Some h]> (packed hs) = packed (hs ++ [h]).
Proof.
  intros Hlt. unfold packed.
  replace (length hs) with (length (Some <$> hs) + 0)%nat at 1
    by (rewrite length_fmap; lia).
  rewrite insert_app_r, length_app. simpl length.
  replace (MAX_FUNCS - length hs)%nat with (S (MAX_FUNCS - (length hs + 1)))%nat by lia.
  rewrite fmap_app, <- app_assoc. reflexivity.
Qed.

Lemma occupants_replicate n : occupants (replicate n NULL) = [].
Proof. induction n as [|n IH]; [reflexivity | exact IH]. Qed.

Lemma occupants_packed hs : occupants (packed hs) = hs.
Proof.
  unfold packed. generalize (MAX_FUNCS - length hs)%nat as n. intros n.
  induction hs as [|h hs IH]; [apply occupants_replicate|].
  unfold occupants in *. cbn. f_equal. exact IH.
Qed.

(** ** Well-formed states *)

Lemma bg_wf_same_table st st' :
  funcs st' = funcs st → stale_funcs st' = stale_funcs st → max_func st' = max_func st →
  bg_wf st → bg_wf st'.
Proof. unfold bg_wf. intros -> -> ->. auto. Qed.

Lemma bg_wf_init : bg_wf bg_man_pthreads_init.
Proof. unfold bg_wf, MAX_FUNCS. simpl. lia. Qed.

Lemma bg_wf_gate_step st c : bg_wf st → bg_wf (gate_step st c).
Proof.
  apply bg_wf_same_table; destruct c; simpl;
    try reflexivity; auto using funcs_enable, stale_funcs_enable, max_func_enable.
Qed.

Lemma bg_wf_register past f st :
  bg_wf st → bg_wf (bg_man_pthreads_register_func past f st).2.
Proof.
  intros Hwf. pose proof Hwf as (Hlen & Hq & Hmf).
  destruct (first_empty_or_full (funcs st) past Hlen) as [[_ Hfull]|Hfree].
  - destruct (register_func_full past f st Hwf Hfull) as (_ & Hf & Hs & Hm).
    unfold bg_wf. rewrite Hf, Hs, Hm. auto.
  - destruct (register_func_free past f st _ Hwf Hfree) as (_ & Hf & Hs & Hm).
    destruct (first_free_empty _ past _ Hlen Hfree) as [_ Hi].
    unfold bg_wf. rewrite Hf, Hs, Hm, length_insert.
    split; [exact Hlen|]. split; [exact Hq|]. case_bool_decide; lia.
Qed.

Lemma stale_funcs_really_unregister f st :
  stale_funcs (really_unregister_func f st).2 = stale_funcs st.
Proof.
  unfold really_unregister_func. cbv zeta.
  repeat case_bool_decide; reflexivity.
Qed.

Lemma funcs_really_unregister f st :
  funcs (really_unregister_func f st).2 = funcs st ∨
  ∃ i, funcs (really_unregister_func f st).2 = <[i:=NULL]> (funcs st).
Proof.
  unfold really_unregister_func. cbv zeta.
  repeat case_bool_decide; cbn; eauto.
Qed.

Lemma bg_wf_really_unregister f st :
  bg_wf st → bg_wf (really_unregister_func f st).2.
Proof.
  intros Hwf. destruct (really_unregister_func_cases f st Hwf) as [[-> _]|(i & Hi & _)].
  - exact Hwf.
  - rewrite (really_unregister_func_found _ _ _ Hi).
    destruct Hwf as (Hlen & Hq & Hmf). destruct Hi as (Hlt & _).
    case_bool_decide as Hlast; unfold bg_wf; cbn; rewrite length_insert.
    + destruct (shrink_max_func_spec (<[i:=NULL]> (funcs st)) (max_func st) ltac:(lia))
        as (Hs & _). repeat split; try assumption. lia.
    + auto.
Qed.

Lemma bg_wf_unregister busy f st :
  bg_wf st → bg_wf (bg_man_pthreads_unregister_func busy f st).2.
Proof.
  intros Hwf. unfold bg_man_pthreads_unregister_func. destruct busy.
  - case_bool_decide; [exact Hwf|]. destruct Hwf as (Hlen & Hq & Hmf).
    unfold bg_wf. cbn [snd set_stale_funcs funcs stale_funcs max_func].
    rewrite put_stale_length. auto.
  - apply bg_wf_really_unregister. exact Hwf.
Qed.

(** ** Cells from [max_func] on stay empty *)

Lemma trailing_empty_init : trailing_empty bg_man_pthreads_init.
Proof.
  intros i _ Hi. unfold bg_man_pthreads_init. cbn [funcs].
  apply lookup_replicate_2. exact Hi.
Qed.

Lemma trailing_empty_same_table st st' :
  funcs st' = funcs st → max_func st' = max_func st →
  trailing_empty st → trailing_empty st'.
Proof. unfold trailing_empty. intros -> ->. auto. Qed.

Lemma trailing_empty_gate_step st c : trailing_empty st → trailing_empty (gate_step st c).
Proof.
  apply trailing_empty_same_table; destruct c; simpl;
    try reflexivity; auto using funcs_enable, max_func_enable.
Qed.

(** Under the invariant the first empty cell is not above [max_func]. *)
Lemma first_empty_le_max_func st i :
  length (funcs st) = MAX_FUNCS →
  trailing_empty st → first_empty (funcs st) i → (i ≤ max_func st)%nat.
Proof.
  intros Hlen Htr (Hat & Hocc).
  destruct (le_lt_dec i (max_func st)) as [|Hgt]; [assumption|].
  exfalso. destruct (Hocc (max_func st) Hgt) as [h Hh].
  apply lookup_lt_Some in Hat.
  rewrite Htr in Hh; [discriminate | lia | lia].
Qed.

Lemma trailing_empty_register past f st :
  bg_wf st → trailing_empty st →
  trailing_empty (bg_man_pthreads_register_func past f st).2.
Proof.
  intros Hwf Htr. pose proof Hwf as (Hlen & Hq & Hmf).
  destruct (first_empty_or_full (funcs st) past Hlen) as [[_ Hfull]|Hfree].
  - destruct (register_func_full past f st Hwf Hfull) as (_ & Hf & _ & Hm).
    apply (trailing_empty_same_table st); assumption.
  - destruct (register_func_free past f st _ Hwf Hfree) as (_ & Hf & _ & Hm).
    pose proof (first_empty_le_max_func _ _ Hlen Htr Hfree) as Hle.
    intros j Hj1 Hj2. rewrite Hf. rewrite Hm in Hj1.
    rewrite list_lookup_insert_ne.
    + apply Htr; [|exact Hj2]. case_bool_decide; lia.
    + case_bool_decide; lia.
Qed.

Lemma trailing_empty_really_unregister f st :
  bg_wf st → trailing_empty st → trailing_empty (really_unregister_func f st).2.
Proof.
  intros Hwf Htr.
  destruct (really_unregister_func_cases f st Hwf) as [[-> _]|(i & Hi & _)]; [exact Htr|].
  rewrite (really_unregister_func_found _ _ _ Hi).
  destruct Hwf as (Hlen & Hq & Hmf). destruct Hi as (Hlt & Hat & _).
  case_bool_decide as Hlast; intros j Hj1 Hj2;
    cbn [snd funcs max_func set_funcs set_max_func] in *.
  - destruct (shrink_max_func_spec (<[i:=NULL]> (funcs st)) (max_func st) ltac:(lia))
      as (_ & Hnull & _).
    destruct (decide (j = i)) as [->|Hne].
    + apply list_lookup_insert_eq. lia.
    + destruct (le_lt_dec (max_func st) j) as [Hge|Hbelow].
      * rewrite list_lookup_insert_ne by lia. apply Htr; assumption.
      * rewrite (total_lookup_inside (<[i:=NULL]> (funcs st)) j)
          by (rewrite length_insert; lia).
        f_equal. apply Hnull; [exact Hj1 | lia].
  - rewrite list_lookup_insert_ne by lia. apply Htr; assumption.
Qed.

Lemma trailing_empty_unregister busy f st :
  bg_wf st → trailing_empty st →
  trailing_empty (bg_man_pthreads_unregister_func busy f st).2.
Proof.
  intros Hwf Htr. unfold bg_man_pthreads_unregister_func. destruct busy.
  - case_bool_decide; exact Htr.
  - apply trailing_empty_really_unregister; assumption.
Qed.

(** ** No callback in two cells *)

Lemma at_most_once_init : at_most_once bg_man_pthreads_init.
Proof.
  intros i j h Hi _. unfold bg_man_pthreads_init in Hi. cbn [funcs] in Hi.
  apply lookup_replicate_1 in Hi.
  destruct Hi as [Hi _]. discriminate.
Qed.

Lemma at_most_once_same_funcs st st' :
  funcs st' = funcs st → at_most_once st → at_most_once st'.
Proof. unfold at_most_once. intros ->. auto. Qed.

Lemma at_most_once_clear st st' i :
  funcs st' = <[i:=NULL]> (funcs st) → at_most_once st → at_most_once st'.
Proof.
  intros Hf Hone j1 j2 h. rewrite Hf. intros H1 H2.
  apply list_lookup_insert_Some in H1. apply list_lookup_insert_Some in H2.
  destruct H1 as [(_ & H1 & _)|(_ & H1)]; [discriminate|].
  destruct H2 as [(_ & H2 & _)|(_ & H2)]; [discriminate|].
  exact (Hone _ _ _ H1 H2).
Qed.

Lemma at_most_once_gate_step st c : at_most_once st → at_most_once (gate_step st c).
Proof.
  apply at_most_once_same_funcs; destruct c; simpl;
    try reflexivity; auto using funcs_enable.
Qed.

Lemma at_most_once_really_unregister f st :
  at_most_once st → at_most_once (really_unregister_func f st).2.
Proof.
  intros Hone. destruct (funcs_really_unregister f st) as [Hf|(i & Hf)].
  - exact (at_most_once_same_funcs _ _ Hf Hone).
  - exact (at_most_once_clear _ _ _ Hf Hone).
Qed.

Lemma at_most_once_unregister busy f st :
  at_most_once st → at_most_once (bg_man_pthreads_unregister_func busy f st).2.
Proof.
  intros Hone. unfold bg_man_pthreads_unregister_func. destruct busy.
  - case_bool_decide; exact Hone.
  - apply at_most_once_really_unregister. exact Hone.
Qed.

(** Registration keeps callbacks apart when the callback registered is
    null or not yet in the table. *)
Lemma at_most_once_register past f st :
  bg_wf st → at_most_once st → (∀ h, f = Some h → Some h ∉ funcs st) →
  at_most_once (bg_man_pthreads_register_func past f st).2.
Proof.
  intros Hwf Hone Hfresh. pose proof Hwf as (Hlen & _).
  destruct (first_empty_or_full (funcs st) past Hlen) as [[_ Hfull]|Hfree].
  - destruct (register_func_full past f st Hwf Hfull) as (_ & Hf & _).
    exact (at_most_once_same_funcs _ _ Hf Hone).
  - destruct (register_func_free past f st _ Hwf Hfree) as (_ & Hf & _).
    intros j1 j2 h. rewrite Hf. intros H1 H2.
    apply list_lookup_insert_Some in H1. apply list_lookup_insert_Some in H2.
    destruct H1 as [(E1 & H1 & _)|(N1 & H1)], H2 as [(E2 & H2 & _)|(N2 & H2)].
    + congruence.
    + exfalso. apply (Hfresh h H1). apply (list_elem_of_lookup_2 _ j2). exact H2.
    + exfalso. apply (Hfresh h H2). apply (list_elem_of_lookup_2 _ j1). exact H1.
    + exact (Hone _ _ _ H1 H2).
Qed.

(** ** The shape of the queue *)

Lemma queue_ok_init : queue_ok bg_man_pthreads_init.
Proof. exists []. split; [simpl; lia | reflexivity]. Qed.

Lemma queue_ok_same_stale st st' :
  stale_funcs st' = stale_funcs st → queue_ok st → queue_ok st'.
Proof. unfold queue_ok. intros ->. auto. Qed.

Lemma queue_ok_unregister busy f st :
  queue_ok st → queue_ok (bg_man_pthreads_unregister_func busy f st).2.
Proof.
  intros Hq. unfold bg_man_pthreads_unregister_func. destruct busy.
  - case_bool_decide; [exact Hq|]. destruct Hq as (hs & Hlen & Hshape).
    unfold queue_ok. cbn [snd set_stale_funcs stale_funcs]. rewrite Hshape.
    destruct (decide (length hs = MAX_FUNCS)) as [Hfull|Hroom].
    + rewrite put_stale_full by (apply all_occupied_packed; exact Hfull). eauto.
    + rewrite (put_stale_first_empty _ _ (length hs)); try lia.
      * destruct f as [h|].
        -- exists (hs ++ [h]). rewrite length_app. simpl. split; [lia|].
           apply packed_snoc. lia.
        -- exists hs. split; [exact Hlen|]. apply list_insert_id.
           apply lookup_packed_ge; lia.
      * apply length_packed. exact Hlen.
      * apply first_empty_packed. lia.
  - apply (queue_ok_same_stale st); [apply stale_funcs_really_unregister | exact Hq].
Qed.

(** ** The reaping loop of the driver thread *)

Lemma really_unregister_set_stale f q st :
  (really_unregister_func f (set_stale_funcs q st)).2 =
  set_stale_funcs q (really_unregister_func f st).2.
Proof.
  unfold really_unregister_func. cbn [funcs max_func set_stale_funcs set_funcs].
  repeat case_bool_decide; reflexivity.
Qed.

Lemma unregister_each_set_stale hs : ∀ q st,
  unregister_each hs (set_stale_funcs q st) = set_stale_funcs q (unregister_each hs st).
Proof.
  induction hs as [|h hs IH]; intros q st; [reflexivity|].
  unfold unregister_each in *. cbn [foldl].
  rewrite really_unregister_set_stale. apply IH.
Qed.

Lemma set_stale_set_stale q1 q2 st :
  set_stale_funcs q1 (set_stale_funcs q2 st) = set_stale_funcs q1 st.
Proof. reflexivity. Qed.

Lemma set_stale_same st : set_stale_funcs (stale_funcs st) st = st.
Proof. destruct st; reflexivity. Qed.

Lemma queue_from_packed hs :
  (length hs ≤ MAX_FUNCS)%nat → queue_from 0 hs (packed hs).
Proof.
  intros Hlen. split; [apply length_packed; exact Hlen|].
  split; [intros j Hj; lia|]. split.
  - intros j h Hj. apply lookup_packed_lt. exact Hj.
  - intros j Hj1 Hj2. apply lookup_packed_ge; lia.
Qed.

Lemma queue_from_nil n q :
  queue_from n [] q → q = replicate MAX_FUNCS NULL.
Proof.
  intros (Hlen & Hlow & _ & Hhigh). apply list_eq. intros j.
  destruct (le_lt_dec MAX_FUNCS j) as [Hge|Hlt].
  - rewrite !lookup_ge_None_2; [reflexivity | rewrite length_replicate; lia | lia].
  - rewrite lookup_replicate_2 by lia.
    destruct (le_lt_dec n j) as [Hnj|Hjn]; [apply Hhigh; simpl; lia | apply Hlow; lia].
Qed.

Lemma queue_from_step n h hs q :
  queue_from n (h :: hs) q → queue_from (S n) hs (<[n:=NULL]> q).
Proof.
  intros (Hlen & Hlow & Hmid & Hhigh).
  assert (Hn : (n < MAX_FUNCS)%nat).
  { specialize (Hmid 0%nat h eq_refl). apply lookup_lt_Some in Hmid. lia. }
  split; [rewrite length_insert; exact Hlen|]. split; [|split].
  - intros j Hj. destruct (decide (j = n)) as [->|Hne].
    + apply list_lookup_insert_eq. lia.
    + rewrite list_lookup_insert_ne by lia. apply Hlow. lia.
  - intros j h' Hj. rewrite list_lookup_insert_ne by lia.
    replace (S n + j)%nat with (n + S j)%nat by lia. apply Hmid. exact Hj.
  - intros j Hj1 Hj2. rewrite list_lookup_insert_ne by lia.
    apply Hhigh; simpl; lia.
Qed.

Lemma queue_from_length n hs q :
  queue_from n hs q → (n ≤ MAX_FUNCS)%nat → (n + length hs ≤ MAX_FUNCS)%nat.
Proof.
  intros (Hlen & _ & Hmid & _) Hn.
  destruct hs as [|h hs _] using rev_ind; [simpl; lia|].
  rewrite length_app. simpl.
  assert (Hlast : (hs ++ [h]) !! length hs = Some h).
  { rewrite lookup_app_r by lia. rewrite Nat.sub_diag. reflexivity. }
  apply Hmid in Hlast. apply lookup_lt_Some in Hlast. lia.
Qed.

(** The loop over a queue that holds [hs] from index [n]: it removes
    each of them and empties the queue, provided the read that ends the
    loop is inside the array or yields a null pointer. *)
Lemma reap_stale_queue past : ∀ hs n fuel st,
  queue_from n hs (stale_funcs st) →
  (n ≤ MAX_FUNCS)%nat → (MAX_FUNCS ≤ fuel + n)%nat →
  ((n + length hs)%nat = MAX_FUNCS → past = NULL) →
  reap_stale past fuel n st =
  (Some (set_stale_funcs (replicate MAX_FUNCS NULL) (unregister_each hs st)),
   seq n (S (length hs))).
Proof.
  induction hs as [|h hs IH]; intros n fuel st Hq Hn Hfuel Hpast.
  - assert (Hread : read_cell (stale_funcs st) past n = NULL).
    { destruct (decide (n = MAX_FUNCS)) as [Heq|Hne].
      - rewrite read_cell_past; [apply Hpast; simpl; lia|].
        destruct Hq as (Hlen & _). lia.
      - apply read_cell_inside. destruct Hq as (_ & _ & _ & Hhigh).
        apply Hhigh; simpl; lia. }
    destruct fuel; cbn [reap_stale]; rewrite Hread;
      rewrite <- (queue_from_nil _ _ Hq); unfold unregister_each; cbn [foldl length seq];
      rewrite set_stale_same; reflexivity.
  - pose proof (queue_from_length _ _ _ Hq Hn) as Hroom. simpl in Hroom.
    assert (Hread : read_cell (stale_funcs st) past n = Some h).
    { apply read_cell_inside. destruct Hq as (_ & _ & Hmid & _).
      specialize (Hmid 0%nat h eq_refl). rewrite Nat.add_0_r in Hmid. exact Hmid. }
    destruct fuel as [|k]; [lia|]. cbn [reap_stale]. rewrite Hread.
    unfold store_cell. rewrite stale_funcs_really_unregister.
    rewrite bool_decide_eq_true_2 by (destruct Hq as (Hlen & _); lia).
    rewrite (IH (S n) k).
    + cbn [length]. rewrite unregister_each_set_stale, set_stale_set_stale. reflexivity.
    + cbn [set_stale_funcs stale_funcs]. apply (queue_from_step _ h). exact Hq.
    + lia.
    + lia.
    + intros Hfull. apply Hpast. simpl. lia.
Qed.

(** The same loop when the queue is full and the word behind the array
    is not null: the loop goes on past the end. *)
Lemma reap_stale_overrun past g : ∀ hs n fuel st,
  queue_from n hs (stale_funcs st) →
  (MAX_FUNCS ≤ fuel + n)%nat →
  (n + length hs)%nat = MAX_FUNCS → past = Some g →
  reap_stale past fuel n st = (None, seq n (S (length hs))).
Proof.
  induction hs as [|h hs IH]; intros n fuel st Hq Hfuel Hfull Hpast.
  - simpl in Hfull. rewrite Nat.add_0_r in Hfull. subst n.
    assert (Hread : read_cell (stale_funcs st) past MAX_FUNCS = Some g).
    { rewrite read_cell_past; [exact Hpast|]. destruct Hq as (Hlen & _). lia. }
    destruct fuel; cbn [reap_stale]; rewrite Hread; unfold store_cell;
      rewrite stale_funcs_really_unregister;
      rewrite bool_decide_eq_false_2 by (destruct Hq as (Hlen & _); lia); reflexivity.
  - simpl in Hfull.
    assert (Hread : read_cell (stale_funcs st) past n = Some h).
    { apply read_cell_inside. destruct Hq as (_ & _ & Hmid & _).
      specialize (Hmid 0%nat h eq_refl). rewrite Nat.add_0_r in Hmid. exact Hmid. }
    destruct fuel as [|k]; [lia|]. cbn [reap_stale]. rewrite Hread.
    unfold store_cell. rewrite stale_funcs_really_unregister.
    rewrite bool_decide_eq_true_2 by (destruct Hq as (Hlen & _); lia).
    rewrite (IH (S n) k); [reflexivity | | lia | lia | exact Hpast].
    cbn [set_stale_funcs stale_funcs]. apply (queue_from_step _ h). exact Hq.
Qed.

Lemma threadfunc_reap_queue past hs st :
  (length hs ≤ MAX_FUNCS)%nat → stale_funcs st = packed hs →
  (length hs = MAX_FUNCS → past = NULL) →
  threadfunc_reap past st =
  (Some (set_stale_funcs (replicate MAX_FUNCS NULL) (unregister_each hs st)),
   seq 0 (S (length hs))).
Proof.
  intros Hlen Hshape Hpast. unfold threadfunc_reap.
  apply reap_stale_queue; try lia.
  - rewrite Hshape. apply queue_from_packed. exact Hlen.
  - exact Hpast.
Qed.

Lemma threadfunc_reap_overrun past g hs st :
  length hs = MAX_FUNCS → stale_funcs st = packed hs → past = Some g →
  threadfunc_reap past st = (None, seq 0 (S (length hs))).
Proof.
  intros Hlen Hshape Hpast. unfold threadfunc_reap.
  apply (reap_stale_overrun past g); try lia; [|exact Hpast].
  rewrite Hshape. apply queue_from_packed. lia.
Qed.

(** ** Invariants of sequences of calls *)

Lemma stale_funcs_register past f st :
  bg_wf st → stale_funcs (bg_man_pthreads_register_func past f st).2 = stale_funcs st.
Proof.
  intros Hwf. pose proof Hwf as (Hlen & _).
  destruct (first_empty_or_full (funcs st) past Hlen) as [[_ Hfull]|Hfree].
  - apply (register_func_full past f st Hwf Hfull).
  - apply (register_func_free past f st _ Hwf Hfree).
Qed.

Lemma unregister_each_preserves (P : bg_state → Prop) :
  (∀ f st, P st → P (really_unregister_func f st).2) →
  ∀ hs st, P st → P (unregister_each hs st).
Proof.
  intros Hstep. induction hs as [|h hs IH]; intros st Hst; [exact Hst|].
  unfold unregister_each in *. cbn [foldl]. apply IH. apply Hstep. exact Hst.
Qed.

Lemma all_occupied_packed_inv hs :
  (length hs ≤ MAX_FUNCS)%nat → all_occupied (packed hs) → length hs = MAX_FUNCS.
Proof.
  intros Hlen Hocc. destruct (decide (length hs = MAX_FUNCS)) as [|Hne]; [assumption|].
  destruct (Hocc (length hs) ltac:(lia)) as [h Hh].
  rewrite lookup_packed_ge in Hh by lia. discriminate.
Qed.

(** What the reaping loop leaves, whenever it ends inside the array. *)
Lemma threadfunc_reap_result past st st' :
  queue_ok st → (threadfunc_reap past st).1 = Some st' →
  st' = set_stale_funcs (replicate MAX_FUNCS NULL)
          (unregister_each (occupants (stale_funcs st)) st).
Proof.
  intros (hs & Hlen & Hshape) Hrun. rewrite Hshape, occupants_packed.
  destruct (decide (length hs = MAX_FUNCS)) as [Hfull|Hroom]; [destruct past as [g|]|].
  - rewrite (threadfunc_reap_overrun (Some g) g hs st Hfull Hshape eq_refl) in Hrun.
    discriminate.
  - rewrite (threadfunc_reap_queue NULL hs st Hlen Hshape) in Hrun by reflexivity.
    injection Hrun as <-. reflexivity.
  - rewrite (threadfunc_reap_queue past hs st Hlen Hshape) in Hrun by (intros; lia).
    injection Hrun as <-. reflexivity.
Qed.

Lemma bg_inv_init : bg_inv bg_man_pthreads_init.
Proof. split; [apply bg_wf_init | split; [apply trailing_empty_init | apply queue_ok_init]]. Qed.

Lemma bg_wf_trailing_really_unregister f st :
  bg_wf st ∧ trailing_empty st →
  bg_wf (really_unregister_func f st).2 ∧ trailing_empty (really_unregister_func f st).2.
Proof.
  intros [Hwf Htr]. split;
    [apply bg_wf_really_unregister | apply trailing_empty_really_unregister]; assumption.
Qed.

Lemma bg_inv_exec o st st' : bg_inv st → exec o st = Some st' → bg_inv st'.
Proof.
  intros (Hwf & Htr & Hq) Hexec. destruct o as [past f|busy f|past|c]; cbn [exec] in Hexec.
  - injection Hexec as <-. split; [apply bg_wf_register; exact Hwf|].
    split; [apply trailing_empty_register; assumption|].
    apply (queue_ok_same_stale st); [apply stale_funcs_register; exact Hwf | exact Hq].
  - injection Hexec as <-. split; [apply bg_wf_unregister; exact Hwf|].
    split; [apply trailing_empty_unregister; assumption | apply queue_ok_unregister; exact Hq].
  - rewrite (threadfunc_reap_result past st st' Hq Hexec).
    destruct (unregister_each_preserves (λ s, bg_wf s ∧ trailing_empty s)
                (λ f s, bg_wf_trailing_really_unregister f s)
                (occupants (stale_funcs st)) st (conj Hwf Htr)) as [Hwf' Htr'].
    split; [|split].
    + destruct Hwf' as (H1 & H2 & H3). unfold bg_wf.
      cbn [set_stale_funcs funcs stale_funcs max_func]. rewrite length_replicate. auto.
    + exact Htr'.
    + exists []. split; [simpl; lia | reflexivity].
  - injection Hexec as <-. split; [apply bg_wf_gate_step; exact Hwf|].
    split; [apply trailing_empty_gate_step; exact Htr|].
    apply (queue_ok_same_stale st); [|exact Hq].
    destruct c; simpl; [reflexivity | apply stale_funcs_enable].
Qed.

Lemma bg_inv_run ops : ∀ st st', bg_inv st → run ops st = Some st' → bg_inv st'.
Proof.
  induction ops as [|o ops IH]; intros st st' Hinv Hrun; cbn [run] in Hrun.
  - injection Hrun as <-. exact Hinv.
  - destruct (exec o st) as [st1|] eqn:Hexec; [|discriminate].
    exact (IH st1 st' (bg_inv_exec _ _ _ Hinv Hexec) Hrun).
Qed.

Lemma at_most_once_exec o st st' :
  bg_inv st → at_most_once st → registers_fresh [o] st = true →
  exec o st = Some st' → at_most_once st'.
Proof.
  intros (Hwf & Htr & Hq) Hone Hfresh Hexec.
  destruct o as [past f|busy f|past|c]; cbn [exec] in Hexec.
  - injection Hexec as <-. apply at_most_once_register; [exact Hwf | exact Hone |].
    intros h ->. cbn [registers_fresh] in Hfresh.
    apply andb_true_iff in Hfresh. destruct Hfresh as [Hfresh _].
    apply bool_decide_eq_true in Hfresh. exact Hfresh.
  - injection Hexec as <-. apply at_most_once_unregister. exact Hone.
  - rewrite (threadfunc_reap_result past st st' Hq Hexec).
    apply (at_most_once_same_funcs
             (unregister_each (occupants (stale_funcs st)) st)); [reflexivity|].
    apply (unregister_each_preserves at_most_once); [|exact Hone].
    intros f s. apply at_most_once_really_unregister.
  - injection Hexec as <-. apply at_most_once_gate_step. exact Hone.
Qed.

Lemma registers_fresh_cons o ops st :
  registers_fresh (o :: ops) st = true →
  registers_fresh [o] st = true ∧
  ∀ st', exec o st = Some st' → registers_fresh ops st' = true.
Proof.
  cbn [registers_fresh]. intros H. apply andb_true_iff in H. destruct H as [H1 H2].
  split.
  - rewrite H1. destruct (exec o st); reflexivity.
  - intros st' Hexec. rewrite Hexec in H2. exact H2.
Qed.

Lemma at_most_once_run ops : ∀ st st',
  bg_inv st → at_most_once st → registers_fresh ops st = true →
  run ops st = Some st' → at_most_once st'.
Proof.
  induction ops as [|o ops IH]; intros st st' Hinv Hone Hfresh Hrun; cbn [run] in Hrun.
  - injection Hrun as <-. exact Hone.
  - destruct (exec o st) as [st1|] eqn:Hexec; [|discriminate].
    destruct (registers_fresh_cons _ _ _ Hfresh) as [Hfo Hrest].
    apply (IH st1 st').
    + exact (bg_inv_exec _ _ _ Hinv Hexec).
    + exact (at_most_once_exec _ _ _ Hinv Hone Hfo Hexec).
    + apply Hrest. exact Hexec.
    + exact Hrun.
Qed.

Lemma run_table_inv calls : ∀ st,
  bg_wf st → trailing_empty st →
  bg_wf (run_table calls st) ∧ trailing_empty (run_table calls st).
Proof.
  induction calls as [|c calls IH]; intros st Hwf Htr; [split; assumption|].
  change (run_table (c :: calls) st) with (run_table calls (table_step st c)).
  destruct c as [past f|f]; cbn [table_step]; apply IH.
  - apply bg_wf_register; exact Hwf.
  - apply trailing_empty_register; assumption.
  - apply bg_wf_really_unregister; exact Hwf.
  - apply trailing_empty_really_unregister; assumption.
Qed.

(** ** Registering into an empty table *)


(** * The claims *)



(** C3: immediate removal empties the first cell below [max_func] that
    holds the callback and returns 0; when that cell is cell
    [max_func - 1], [max_func] comes down past it and past the empty
    cells under it, and stops below an occupied cell or at zero; when it
    is another cell, [max_func] stays; and when no cell below [max_func]
    holds the callback, the call returns -1 and changes nothing. *)
Theorem really_unregister_func_removes (f : bg_func) (st : bg_state) :
  bg_wf st →
  (∀ i, first_holding (funcs st) (max_func st) f i →
     (really_unregister_func f st).1 = 0 ∧
     funcs (really_unregister_func f st).2 = <[i:=NULL]> (funcs st) ∧
     funcs (really_unregister_func f st).2 !! i = Some NULL ∧
     stale_funcs (really_unregister_func f st).2 = stale_funcs st ∧
     (S i ≠ max_func st → max_func (really_unregister_func f st).2 = max_func st) ∧
     (S i = max_func st →
        (max_func (really_unregister_func f st).2 ≤ i)%nat ∧
        (∀ j, (max_func (really_unregister_func f st).2 ≤ j)%nat → (j < max_func st)%nat →
              funcs (really_unregister_func f st).2 !! j = Some NULL) ∧
        (max_func (really_unregister_func f st).2 = 0%nat ∨
         ∃ h, funcs (really_unregister_func f st).2
                !! (max_func (really_unregister_func f st).2 - 1)%nat = Some (Some h)))) ∧
  (registered f st → ∃ i, first_holding (funcs st) (max_func st) f i) ∧
  (¬ registered f st → really_unregister_func f st = (-1, st)).
Proof.
  intros Hwf. pose proof Hwf as (Hlen & _ & Hmf).
  split; [|split].
  - intros i Hfirst. rewrite (really_unregister_func_found _ _ _ Hfirst).
    destruct Hfirst as (Hi & Hat & _).
    assert (Hcleared : <[i:=NULL]> (funcs st) !! i = Some NULL)
      by (apply list_lookup_insert_eq; lia).
    case_bool_decide as Hlast; cbn [fst snd funcs stale_funcs max_func set_funcs set_max_func].
    + destruct (shrink_max_func_spec (<[i:=NULL]> (funcs st)) (max_func st) ltac:(lia))
        as (Hlt & Hnull & Hstop).
      repeat split; try reflexivity; try assumption; try (intros; lia).
      * intros j Hj1 Hj2. destruct (decide (j = i)) as [->|Hne]; [exact Hcleared|].
        rewrite (total_lookup_inside (<[i:=NULL]> (funcs st)) j)
          by (rewrite length_insert; lia).
        f_equal. apply Hnull; [exact Hj1 | lia].
      * destruct Hstop as [Hz|[h Hh]]; [left; exact Hz | right].
        exists h. apply total_lookup_handle. exact Hh.
    + repeat split; try reflexivity; try assumption; intros; lia.
  - apply registered_first_holding.
  - apply really_unregister_func_absent. exact Hwf.
Qed.

Lemma really_unregister_func_removes_witness :
  (really_unregister_func (Some 5%positive)
     (bg_man_pthreads_register_func NULL (Some 5%positive) bg_man_pthreads_init).2).1 = 0.
Proof.
  assert (Hwf : bg_wf (bg_man_pthreads_register_func NULL (Some 5%positive)
                         bg_man_pthreads_init).2)
    by (split; [reflexivity | split; [reflexivity | vm_compute; lia]]).
  refine (proj1 (proj1 (really_unregister_func_removes (Some 5%positive) _ Hwf) 0%nat _)).
  split; [vm_compute; lia | split; [reflexivity | intros j Hj; lia]].
Defined.

(** C4: with [cli_mutex] busy, unregistering returns -1 and changes
    nothing when no cell below [max_func] holds the callback; otherwise
    it returns 0 and leaves the table alone, the callback going into the
    first empty cell of [stale_funcs] - and when [stale_funcs] has no
    empty cell the state is unchanged although 0 is returned. *)
Theorem unregister_func_deferred (f : bg_func) (st : bg_state) :
  bg_wf st →
  (¬ registered f st → bg_man_pthreads_unregister_func true f st = (-1, st)) ∧
  (registered f st →
     (bg_man_pthreads_unregister_func true f st).1 = 0 ∧
     funcs (bg_man_pthreads_unregister_func true f st).2 = funcs st ∧
     max_func (bg_man_pthreads_unregister_func true f st).2 = max_func st ∧
     (all_occupied (stale_funcs st) →
        (bg_man_pthreads_unregister_func true f st).2 = st) ∧
     (∀ k, first_empty (stale_funcs st) k →
        stale_funcs (bg_man_pthreads_unregister_func true f st).2
          = <[k:=f]> (stale_funcs st))).
Proof.
  intros Hwf. pose proof Hwf as (Hlen & Hq & Hmf).
  unfold bg_man_pthreads_unregister_func. split.
  - intros Habs. rewrite find_func_absent.
    + rewrite bool_decide_eq_true_2; reflexivity.
    + lia.
    + intros j Hj Hat. apply Habs. exists j. auto.
  - intros Hreg. destruct (registered_first_holding _ _ Hreg) as (i & Hfirst).
    rewrite (find_func_found _ _ _ _ Hfirst). destruct Hfirst as (Hi & _).
    rewrite bool_decide_eq_false_2 by lia.
    cbn [fst snd funcs stale_funcs max_func set_stale_funcs].
    repeat split.
    + intros Hfull. rewrite put_stale_full by exact Hfull. apply set_stale_same.
    + intros k Hk. apply put_stale_first_empty; [exact Hq | exact Hk | lia | lia].
Qed.

Lemma unregister_func_deferred_witness :
  (bg_man_pthreads_unregister_func true (Some 5%positive) bg_man_pthreads_init)
  = (-1, bg_man_pthreads_init).
Proof.
  assert (Hwf : bg_wf bg_man_pthreads_init)
    by (split; [reflexivity | split; [reflexivity | vm_compute; lia]]).
  refine (proj1 (unregister_func_deferred (Some 5%positive) bg_man_pthreads_init Hwf) _).
  intros (i & Hi & _). vm_compute in Hi. lia.
Defined.

(** C5: unregistering a callback that the table does not hold returns
    -1 and changes nothing, whether [cli_mutex] was obtained (immediate
    removal) or was busy (deferred removal): so it is when no cell at
    all holds the callback, and so it is when no cell below [max_func]
    does. *)
Theorem unregister_absent_both_paths (busy : bool) (h : handle) (st : bg_state) :
  (Some h ∉ funcs st →
     bg_man_pthreads_unregister_func busy (Some h) st = (-1, st)) ∧
  (bg_wf st → ¬ registered (Some h) st →
     bg_man_pthreads_unregister_func busy (Some h) st = (-1, st)).
Proof.
  split.
  - intros Habs. unfold bg_man_pthreads_unregister_func, really_unregister_func.
    cbv zeta. rewrite (find_func_absent_handle _ _ _ Habs).
    rewrite bool_decide_eq_true_2 by reflexivity. destruct busy; reflexivity.
  - intros Hwf Habs. unfold bg_man_pthreads_unregister_func, really_unregister_func.
    cbv zeta. destruct Hwf as (Hlen & _ & Hmf). rewrite find_func_absent.
    + rewrite bool_decide_eq_true_2 by reflexivity. destruct busy; reflexivity.
    + lia.
    + intros j Hj Hat. apply Habs. exists j. auto.
Qed.

Lemma unregister_absent_both_paths_witness :
  bg_man_pthreads_unregister_func false (Some 3%positive) bg_man_pthreads_init
    = (-1, bg_man_pthreads_init) ∧
  bg_man_pthreads_unregister_func true (Some 3%positive) bg_man_pthreads_init
    = (-1, bg_man_pthreads_init).
Proof.
  assert (Habs : Some 3%positive ∉ funcs bg_man_pthreads_init).
  { intros Hin. apply list_elem_of_In in Hin. vm_compute in Hin.
    repeat (destruct Hin as [Hin|Hin]; [discriminate|]). exact Hin. }
  split.
  - exact (proj1 (unregister_absent_both_paths false 3%positive bg_man_pthreads_init) Habs).
  - exact (proj1 (unregister_absent_both_paths true 3%positive bg_man_pthreads_init) Habs).
Defined.

Lemma really_unregister_not_found f st :
  (really_unregister_func f st).1 = -1 → (really_unregister_func f st).2 = st.
Proof.
  unfold really_unregister_func. cbv zeta. case_bool_decide; [reflexivity|].
  cbn [fst]. discriminate.
Qed.

(** C6, as the code has it: while [stale_funcs] has an empty cell the
    reaping loop of the driver thread does remove from the table, by
    immediate removal and in cell order, the callback of every occupied
    cell of [stale_funcs] - a removal that returns -1 changing nothing -
    and leaves every cell of [stale_funcs] empty.  With every cell of
    [stale_funcs] occupied, a state that the calls produce, and a word
    behind the array that is not null, the loop reads
    [stale_funcs[MAX_FUNCS]] after the sixteen cells and goes on to
    store past the end of the array: it has no test of [n] against
    [MAX_FUNCS], the bound missing in C10. *)
Theorem full_queue_defeats_reaping :
  (∀ ops st past,
     run ops bg_man_pthreads_init = Some st →
     ¬ all_occupied (stale_funcs st) →
     ∃ st', (threadfunc_reap past st).1 = Some st' ∧
            funcs st' = funcs (unregister_each (occupants (stale_funcs st)) st) ∧
            max_func st' = max_func (unregister_each (occupants (stale_funcs st)) st) ∧
            stale_funcs st' = replicate MAX_FUNCS NULL) ∧
  (∀ h s, (really_unregister_func (Some h) s).1 = -1 →
          (really_unregister_func (Some h) s).2 = s) ∧
  (∀ ops st g,
     run ops bg_man_pthreads_init = Some st →
     all_occupied (stale_funcs st) →
     threadfunc_reap (Some g) st = (None, seq 0 (S MAX_FUNCS))) ∧
  (∃ st, run fill_queue bg_man_pthreads_init = Some st ∧
         all_occupied (stale_funcs st) ∧
         ∀ g, threadfunc_reap (Some g) st = (None, seq 0 (S MAX_FUNCS))).
Proof.
  assert (Hfull : ∀ ops st g,
            run ops bg_man_pthreads_init = Some st →
            all_occupied (stale_funcs st) →
            threadfunc_reap (Some g) st = (None, seq 0 (S MAX_FUNCS))).
  { intros ops st g Hrun Hocc.
    destruct (bg_inv_run _ _ _ bg_inv_init Hrun) as (_ & _ & (hs & Hlen & Hshape)).
    rewrite Hshape in Hocc. pose proof (all_occupied_packed_inv hs Hlen Hocc) as Hhs.
    rewrite (threadfunc_reap_overrun (Some g) g hs st Hhs Hshape eq_refl), Hhs.
    reflexivity. }
  split; [|split; [|split]].
  - intros ops st past Hrun Hroom.
    destruct (bg_inv_run _ _ _ bg_inv_init Hrun) as (_ & _ & (hs & Hlen & Hshape)).
    rewrite (threadfunc_reap_queue past hs st Hlen Hshape).
    + rewrite Hshape, occupants_packed. eexists. split; [reflexivity|].
      cbn [set_stale_funcs funcs stale_funcs max_func]. auto.
    + intros Hhs. exfalso. apply Hroom. rewrite Hshape.
      apply all_occupied_packed. exact Hhs.
  - intros h s. apply really_unregister_not_found.
  - exact Hfull.
  - assert (Hrun : run fill_queue bg_man_pthreads_init
                   = Some (BgState (Some 1%positive :: replicate 15 NULL)
                                   (replicate MAX_FUNCS (Some 1%positive)) 1 0 1 false))
      by (vm_compute; reflexivity).
    eexists. split; [exact Hrun|].
    assert (Hocc : all_occupied (replicate MAX_FUNCS (Some 1%positive))).
    { intros i Hi. exists 1%positive. apply lookup_replicate_2. exact Hi. }
    split; [exact Hocc|]. intros g. exact (Hfull _ _ g Hrun Hocc).
Qed.

(** C7: in every state that registrations and immediate removals
    produce from the initial state, every cell from [max_func] on is
    empty; registration and immediate removal each keep it so; and
    empty cells below [max_func] do occur. *)
Theorem max_func_bounds_occupied_cells :
  (∀ calls : list table_call,
     bg_wf (run_table calls bg_man_pthreads_init) ∧
     trailing_empty (run_table calls bg_man_pthreads_init)) ∧
  (∀ past f st, bg_wf st → trailing_empty st →
     trailing_empty (bg_man_pthreads_register_func past f st).2) ∧
  (∀ f st, bg_wf st → trailing_empty st →
     trailing_empty (really_unregister_func f st).2) ∧
  (∃ (calls : list table_call) (i : nat),
     (i < max_func (run_table calls bg_man_pthreads_init))%nat ∧
     funcs (run_table calls bg_man_pthreads_init) !! i = Some NULL).
Proof.
  split; [|split; [|split]].
  - intros calls. apply run_table_inv; [apply bg_wf_init | apply trailing_empty_init].
  - intros past f st. apply trailing_empty_register.
  - intros f st. apply trailing_empty_really_unregister.
  - exists [CallRegister NULL (Some 1%positive); CallRegister NULL (Some 2%positive);
            CallRegister NULL (Some 3%positive); CallReallyUnregister (Some 2%positive)].
    exists 1%nat. split; [vm_compute; lia | reflexivity].
Qed.

Lemma max_func_bounds_occupied_cells_witness :
  trailing_empty
    (run_table [CallRegister NULL (Some 1%positive); CallRegister NULL (Some 2%positive);
                CallReallyUnregister (Some 2%positive)] bg_man_pthreads_init).
Proof.
  exact (proj2 (proj1 max_func_bounds_occupied_cells
                  [CallRegister NULL (Some 1%positive); CallRegister NULL (Some 2%positive);
                   CallReallyUnregister (Some 2%positive)])).
Defined.

(** C8, as the code has it: registering a callback twice puts it in two
    cells. *)
Lemma register_twice_fills_two_cells :
  ¬ (∀ ops st, run ops bg_man_pthreads_init = Some st → at_most_once st).
Proof.
  intros Hall.
  specialize (Hall [Register NULL (Some 1%positive); Register NULL (Some 1%positive)]
                   _ eq_refl 0%nat 1%nat 1%positive eq_refl eq_refl).
  discriminate.
Qed.

(** C8, amended: in every state produced from the initial state by
    registrations, removals (immediate or deferred), reaping and gate
    calls in which no registration is of a callback that the table
    holds at the time, each callback is in at most one cell. *)
Theorem callbacks_registered_once (ops : list op) (st : bg_state) :
  registers_fresh ops bg_man_pthreads_init = true →
  run ops bg_man_pthreads_init = Some st →
  at_most_once st.
Proof.
  intros Hfresh Hrun.
  exact (at_most_once_run ops _ _ bg_inv_init at_most_once_init Hfresh Hrun).
Qed.

Lemma callbacks_registered_once_witness :
  ∃ st, run [Register NULL (Some 1%positive); Register NULL (Some 2%positive);
             Unregister true (Some 1%positive); Reap NULL;
             Register NULL (Some 1%positive)] bg_man_pthreads_init = Some st ∧
        at_most_once st.
Proof.
  eexists. split; [reflexivity|].
  exact (callbacks_registered_once
           [Register NULL (Some 1%positive); Register NULL (Some 2%positive);
            Unregister true (Some 1%positive); Reap NULL;
            Register NULL (Some 1%positive)] _ eq_refl eq_refl).
Defined.

(** ** Reads past the end of the arrays *)

Lemma register_reads_full past st :
  bg_wf st → all_occupied (funcs st) → register_reads past st = seq 0 (S MAX_FUNCS).
Proof.
  intros (Hlen & _) Hfull. unfold register_reads.
  destruct (first_free_spec (funcs st) past MAX_FUNCS 0 Hlen ltac:(lia) ltac:(lia))
    as (_ & _ & _ & Hreads).
  rewrite Hreads, (first_free_full _ past Hlen Hfull), Nat.sub_0_r. reflexivity.
Qed.

Lemma threadfunc_reap_reads_full past st :
  queue_ok st → all_occupied (stale_funcs st) →
  (threadfunc_reap past st).2 = seq 0 (S MAX_FUNCS).
Proof.
  intros (hs & Hlen & Hshape) Hfull. rewrite Hshape in Hfull.
  pose proof (all_occupied_packed_inv hs Hlen Hfull) as Hhs.
  destruct past as [g|].
  - rewrite (threadfunc_reap_overrun (Some g) g hs st Hhs Hshape eq_refl), Hhs. reflexivity.
  - rewrite (threadfunc_reap_queue NULL hs st Hlen Hshape (λ _, eq_refl)), Hhs. reflexivity.
Qed.

(** C10, as the code has it: with every cell of [funcs] occupied the
    scan of a registration reads [funcs[MAX_FUNCS]], and with every cell
    of [stale_funcs] occupied the reaping loop reads
    [stale_funcs[MAX_FUNCS]]; both states are produced by calls from the
    initial state. *)
Theorem scans_read_past_the_arrays :
  (∀ past st, bg_wf st → all_occupied (funcs st) →
     MAX_FUNCS ∈ register_reads past st) ∧
  (∀ past st, queue_ok st → all_occupied (stale_funcs st) →
     MAX_FUNCS ∈ (threadfunc_reap past st).2) ∧
  (∃ st, run fill_table bg_man_pthreads_init = Some st ∧
         all_occupied (funcs st) ∧
         ∀ past, register_reads past st = seq 0 (S MAX_FUNCS)) ∧
  (∃ st, run fill_queue bg_man_pthreads_init = Some st ∧
         all_occupied (stale_funcs st) ∧
         ∀ past, (threadfunc_reap past st).2 = seq 0 (S MAX_FUNCS)).
Proof.
  assert (Hin : MAX_FUNCS ∈ seq 0 (S MAX_FUNCS)).
  { apply list_elem_of_In, in_seq. lia. }
  assert (Hocc : ∀ hs, length hs = MAX_FUNCS → all_occupied (packed hs))
    by exact all_occupied_packed.
  split; [|split; [|split]].
  - intros past st Hwf Hfull. rewrite register_reads_full by assumption. exact Hin.
  - intros past st Hq Hfull. rewrite threadfunc_reap_reads_full by assumption. exact Hin.
  - eexists. split; [reflexivity|].
    assert (Hfull : all_occupied
              (packed (map (λ k, Pos.of_nat (S k)) (seq 0 MAX_FUNCS))))
      by (apply Hocc; reflexivity).
    split; [exact Hfull|]. intros past. apply register_reads_full; [|exact Hfull].
    split; [reflexivity | split; [reflexivity | vm_compute; lia]].
  - eexists. split; [reflexivity|].
    assert (Hfull : all_occupied (packed (replicate MAX_FUNCS 1%positive)))
      by (apply Hocc; reflexivity).
    split; [exact Hfull|]. intros past. apply threadfunc_reap_reads_full; [|exact Hfull].
    exists (replicate MAX_FUNCS 1%positive). split; [vm_compute; lia | reflexivity].
Qed.

(** ** Scaling an interval to timer ticks *)

Section TickBounds.

Variable R : Z.
Hypothesis rate_range : 1 ≤ R ÷ 100 ≤ INT_MAX.

Lemma chunk_limit_range : 1 ≤ chunk_limit R ≤ INT_MAX.
Proof.
  unfold chunk_limit. rewrite Z.quot_div_nonneg by (unfold INT_MAX; lia).
  unfold INT_MAX in *. split.
  - apply Z.div_le_lower_bound; lia.
  - apply Z.div_le_upper_bound; lia.
Qed.

(** No product of the loop leaves the range of [int]. *)
Lemma chunk_product_range i :
  0 ≤ i ≤ chunk_limit R → 0 ≤ i * (R ÷ 100) ≤ INT_MAX.
Proof.
  intros Hi. split; [apply Z.mul_nonneg_nonneg; lia|].
  transitivity (chunk_limit R * (R ÷ 100)).
  - apply Z.mul_le_mono_nonneg_r; lia.
  - unfold chunk_limit. rewrite Z.quot_div_nonneg by (unfold INT_MAX; lia).
    rewrite Z.mul_comm. apply Z.mul_div_le. lia.
Qed.

Lemma wrap_ulong_small z : 0 ≤ z < 2 ^ 64 → wrap_ulong z = z.
Proof. intros Hz. unfold wrap_ulong. apply Z.mod_small. exact Hz. Qed.

Lemma tick_pass_spec t :
  0 < t < 2 ^ 64 →
  tick_pass R t =
    (t - Z.min t (chunk_limit R), Z.min t (chunk_limit R) * (R ÷ 100) / 10000) ∧
  1 ≤ Z.min t (chunk_limit R) ≤ chunk_limit R.
Proof.
  intros Ht. pose proof chunk_limit_range as HC. unfold INT_MAX in *.
  split; [|lia]. unfold tick_pass.
  rewrite (wrap_ulong_small (chunk_limit R)) by lia.
  rewrite (wrap_ulong_small (R ÷ 100)) by lia.
  rewrite (wrap_ulong_small (t - _)) by lia.
  pose proof (chunk_product_range (Z.min t (chunk_limit R)) ltac:(lia)) as Hp.
  unfold INT_MAX in Hp. rewrite wrap_ulong_small by lia.
  rewrite Z.quot_div_nonneg by lia. reflexivity.
Qed.

(** The loop ends, and each pass loses less than one tick. *)
Lemma tick_batches_bounds : ∀ fuel t,
  0 ≤ t < 2 ^ 64 → t ≤ Z.of_nat fuel →
  ∃ bs, tick_batches R fuel t = Some bs ∧
        10000 * sumZ bs ≤ t * (R ÷ 100) ∧
        t * (R ÷ 100) ≤ 10000 * sumZ bs + 9999 * Z.of_nat (length bs) ∧
        t ≤ chunk_limit R * Z.of_nat (length bs) ∧
        (bs = [] ∨ chunk_limit R * (Z.of_nat (length bs) - 1) < t).
Proof.
  pose proof chunk_limit_range as HC.
  induction fuel as [|k IH]; intros t Ht Hfuel.
  - assert (t = 0) as -> by lia. exists []. cbn. repeat split; try lia; try (left; reflexivity).
  - cbn [tick_batches]. destruct (Z.eqb_spec t 0) as [->|Hne].
    + exists []. cbn. repeat split; try lia; try (left; reflexivity).
    + destruct (tick_pass_spec t ltac:(lia)) as [-> Hi].
      destruct (IH (t - Z.min t (chunk_limit R)) ltac:(lia) ltac:(lia))
        as (bs & -> & Hlo & Hhi & Hlen & Hlast).
      eexists. split; [reflexivity|]. cbn [sumZ foldr length].
      fold (sumZ bs). rewrite Nat2Z.inj_succ.
      set (i := Z.min t (chunk_limit R)) in *.
      set (r := R ÷ 100) in *. set (n := Z.of_nat (length bs)) in *.
      set (C := chunk_limit R) in *.
      assert (Hn : 0 ≤ n) by (subst n; lia).
      assert (Hdiv : 10000 * (i * r / 10000) ≤ i * r ≤ 10000 * (i * r / 10000) + 9999).
      { pose proof (Z.mul_nonneg_nonneg i r ltac:(lia) ltac:(lia)).
        Z.div_mod_to_equations. lia. }
      assert (Hsplit : t * r = i * r + (t - i) * r) by lia.
      repeat split; try lia.
      right. destruct Hlast as [->|Hlast].
      * subst n. cbn. lia.
      * assert (Hprod : n = 0 ∨ 0 ≤ C * (n - 1)).
        { destruct (Z.eq_dec n 0); [left; assumption | right].
          apply Z.mul_nonneg_nonneg; lia. }
        destruct (Z.min_spec t C) as [[? Hm]|[? Hm]]; fold i in Hm; lia.
Qed.

Lemma sample_batches_bounds t :
  0 ≤ t < 2 ^ 64 →
  ∃ bs, sample_batches R t = Some bs ∧
        10000 * sumZ bs ≤ t * (R ÷ 100) ∧
        t * (R ÷ 100) ≤ 10000 * sumZ bs + 9999 * Z.of_nat (length bs) ∧
        t ≤ chunk_limit R * Z.of_nat (length bs) ∧
        (bs = [] ∨ chunk_limit R * (Z.of_nat (length bs) - 1) < t).
Proof.
  intros Ht. unfold sample_batches. apply tick_batches_bounds; [exact Ht|].
  rewrite Z2Nat.id; lia.
Qed.

Lemma sumZ_app l1 l2 : sumZ (l1 ++ l2) = sumZ l1 + sumZ l2.
Proof.
  induction l1 as [|x l1 IH]; [reflexivity|].
  cbn [app sumZ foldr]. fold (sumZ (l1 ++ l2)). fold (sumZ l1). lia.
Qed.

Lemma samples_batches_bounds : ∀ samples,
  Forall (λ t, 0 ≤ t < 2 ^ 64) samples →
  ∃ bs, samples_batches R samples = Some bs ∧
        10000 * sumZ bs ≤ sumZ samples * (R ÷ 100) ∧
        sumZ samples * (R ÷ 100) ≤ 10000 * sumZ bs + 9999 * Z.of_nat (length bs) ∧
        sumZ samples ≤ chunk_limit R * Z.of_nat (length bs).
Proof.
  induction 1 as [|t ts Ht _ IH].
  - exists []. cbn. repeat split; lia.
  - destruct IH as (bs & Hbs & Hlo & Hhi & Hlen).
    destruct (sample_batches_bounds t Ht) as (b & Hb & Hlo1 & Hhi1 & Hlen1 & _).
    exists (b ++ bs). cbn [samples_batches]. rewrite Hb, Hbs.
    split; [reflexivity|]. rewrite sumZ_app, length_app, Nat2Z.inj_add.
    cbn [sumZ foldr]. fold (sumZ ts). repeat split; lia.
Qed.

(** From the bounds on the numerators to the bounds on the ticks. *)
Lemma direct_ticks_bounds t s n :
  0 ≤ t → 0 ≤ n →
  10000 * s ≤ t * (R ÷ 100) → t * (R ÷ 100) ≤ 10000 * s + 9999 * n →
  direct_ticks R t - n ≤ s ≤ direct_ticks R t.
Proof.
  intros Ht Hn Hlo Hhi. unfold direct_ticks.
  pose proof (Z.mul_nonneg_nonneg t (R ÷ 100) ltac:(lia) ltac:(lia)).
  rewrite Z.quot_div_nonneg by lia.
  Z.div_mod_to_equations. lia.
Qed.

End TickBounds.

Lemma sumZ_nonneg samples :
  Forall (λ t, 0 ≤ t < 2 ^ 64) samples → 0 ≤ sumZ samples.
Proof.
  induction 1 as [|t ts Ht _ IH]; [cbn; lia|].
  cbn [sumZ foldr]. fold (sumZ ts). lia.
Qed.

(** C9, as the code has it: at Allegro's rate, twenty samples of one
    microsecond give twenty ticks, and one sample of twenty microseconds
    gives twenty-three. *)
Lemma twenty_short_samples_lose_three_ticks :
  ¬ (∀ (R : Z) (samples : list Z) (bs b1 : list Z),
       1 ≤ R ÷ 100 ≤ INT_MAX →
       Forall (λ t, 0 ≤ t < 2 ^ 64) samples →
       samples_batches R samples = Some bs →
       sample_batches R (sumZ samples) = Some b1 →
       Z.abs (sumZ bs - sumZ b1) ≤ 1).
Proof.
  intros Hall.
  assert (Hsamples : Forall (λ t, 0 ≤ t < 2 ^ 64) (replicate 20 1)).
  { apply Forall_forall. intros t Ht. apply elem_of_replicate in Ht.
    destruct Ht as [-> _]. lia. }
  specialize (Hall ALLEGRO_TIMERS_PER_SECOND (replicate 20 1) (replicate 20 1) [23]
                   ltac:(vm_compute; split; discriminate) Hsamples eq_refl eq_refl).
  vm_compute in Hall. apply Hall. reflexivity.
Qed.

(** C9, amended: for a rate [R] with [R/100] between 1 and [INT_MAX],
    the loop ends on every sample; the ticks summed over any sequence of
    samples that total [T] microseconds never exceed [T*(R/100)/10000],
    and fall short of it by at most one tick for each pass of the loop
    (a pass taking at most [INT_MAX/(R/100)] microseconds); the same
    holds of [T] taken as one sample, which needs no more passes, so the
    two sums differ by at most the number of passes made over the
    sequence. *)
Theorem tick_batches_lose_a_tick_per_pass_at_most (R : Z) (samples : list Z) :
  1 ≤ R ÷ 100 ≤ INT_MAX →
  Forall (λ t, 0 ≤ t < 2 ^ 64) samples →
  sumZ samples < 2 ^ 64 →
  ∃ bs b1,
    samples_batches R samples = Some bs ∧
    sample_batches R (sumZ samples) = Some b1 ∧
    direct_ticks R (sumZ samples) - Z.of_nat (length bs) ≤ sumZ bs ∧
    sumZ bs ≤ direct_ticks R (sumZ samples) ∧
    direct_ticks R (sumZ samples) - Z.of_nat (length b1) ≤ sumZ b1 ∧
    sumZ b1 ≤ direct_ticks R (sumZ samples) ∧
    (length b1 ≤ length bs)%nat ∧
    Z.abs (sumZ bs - sumZ b1) ≤ Z.of_nat (length bs).
Proof.
  intros HR Hsamples Htotal.
  pose proof (sumZ_nonneg samples Hsamples) as Hpos.
  pose proof (chunk_limit_range R HR) as HC.
  destruct (samples_batches_bounds R HR samples Hsamples) as (bs & Hbs & Hlo & Hhi & Hlen).
  destruct (sample_batches_bounds R HR (sumZ samples) ltac:(lia))
    as (b1 & Hb1 & Hlo1 & Hhi1 & Hlen1 & Hlast1).
  exists bs, b1.
  pose proof (direct_ticks_bounds R HR (sumZ samples) (sumZ bs) (Z.of_nat (length bs))
                Hpos ltac:(lia) Hlo Hhi) as Hd.
  pose proof (direct_ticks_bounds R HR (sumZ samples) (sumZ b1) (Z.of_nat (length b1))
                Hpos ltac:(lia) Hlo1 Hhi1) as Hd1.
  assert (Hpasses : (length b1 ≤ length bs)%nat).
  { destruct Hlast1 as [->|Hlast1]; [simpl; lia|].
    assert (Hlt : chunk_limit R * (Z.of_nat (length b1) - 1)
                  < chunk_limit R * Z.of_nat (length bs)) by lia.
    apply Z.mul_lt_mono_pos_l in Hlt; lia. }
  repeat split; try assumption; try lia.
Qed.

Lemma tick_batches_lose_a_tick_per_pass_at_most_witness :
  ∃ bs b1,
    samples_batches ALLEGRO_TIMERS_PER_SECOND [1; 1; 1; 1; 1; 1; 1; 1; 1; 1] = Some bs ∧
    sample_batches ALLEGRO_TIMERS_PER_SECOND 10 = Some b1 ∧
    Z.abs (sumZ bs - sumZ b1) ≤ Z.of_nat (length bs).
Proof.
  assert (HR : 1 ≤ ALLEGRO_TIMERS_PER_SECOND ÷ 100 ≤ INT_MAX)
    by (vm_compute; split; discriminate).
  assert (Hs : Forall (λ t, 0 ≤ t < 2 ^ 64) [1; 1; 1; 1; 1; 1; 1; 1; 1; 1])
    by (repeat constructor; lia).
  assert (Ht : sumZ [1; 1; 1; 1; 1; 1; 1; 1; 1; 1] < 2 ^ 64) by (vm_compute; reflexivity).
  destruct (tick_batches_lose_a_tick_per_pass_at_most
              ALLEGRO_TIMERS_PER_SECOND [1; 1; 1; 1; 1; 1; 1; 1; 1; 1] HR Hs Ht)
    as (bs & b1 & Hbs & Hb1 & _ & _ & _ & _ & _ & Habs).
  exists bs, b1. split; [exact Hbs|]. split; [exact Hb1 | exact Habs].
Defined.

(** * Further properties of the table *)

Lemma unregister_func_not_in_table busy h st :
  Some h ∉ funcs st → bg_man_pthreads_unregister_func busy (Some h) st = (-1, st).
Proof.
  intros Habs. unfold bg_man_pthreads_unregister_func, really_unregister_func.
  cbv zeta. rewrite (find_func_absent_handle _ _ _ Habs).
  rewrite bool_decide_eq_true_2 by reflexivity. destruct busy; reflexivity.
Qed.

Lemma max_func_really_unregister_le f st :
  bg_wf st → (max_func (really_unregister_func f st).2 ≤ max_func st)%nat.
Proof.
  intros Hwf.
  destruct (really_unregister_func_cases f st Hwf) as [[-> _]|(i & Hi & _)]; [simpl; lia|].
  rewrite (really_unregister_func_found _ _ _ Hi). destruct Hi as (Hlt & _).
  case_bool_decide; cbn [snd max_func set_max_func set_funcs]; [|lia].
  destruct (shrink_max_func_spec (<[i:=NULL]> (funcs st)) (max_func st) ltac:(lia)). lia.
Qed.

(** ** [max_func] is one past the highest occupied cell *)

Lemma top_occupied_init : top_occupied bg_man_pthreads_init.
Proof. left. reflexivity. Qed.

Lemma top_occupied_same_table st st' :
  funcs st' = funcs st → max_func st' = max_func st → top_occupied st → top_occupied st'.
Proof. unfold top_occupied. intros -> ->. auto. Qed.

Lemma top_occupied_register past h st :
  bg_wf st → trailing_empty st → top_occupied st →
  top_occupied (bg_man_pthreads_register_func past (Some h) st).2.
Proof.
  intros Hwf Htr Htop. pose proof Hwf as (Hlen & _ & Hmf).
  destruct (first_empty_or_full (funcs st) past Hlen) as [[_ Hfull]|Hfree].
  - destruct (register_func_full past (Some h) st Hwf Hfull) as (_ & Hf & _ & Hm).
    exact (top_occupied_same_table _ _ Hf Hm Htop).
  - destruct (register_func_free past (Some h) st _ Hwf Hfree) as (_ & Hf & _ & Hm).
    pose proof (first_empty_le_max_func _ _ Hlen Htr Hfree) as Hle.
    destruct (first_free_empty _ past _ Hlen Hfree) as [_ Hi].
    set (i := (first_free (funcs st) past MAX_FUNCS 0).1) in *.
    unfold top_occupied. rewrite Hf, Hm. right.
    case_bool_decide as Hat.
    + exists h. replace (S (max_func st) - 1)%nat with i by lia.
      apply list_lookup_insert_eq. lia.
    + destruct Htop as [Hz|[h' Hh']]; [lia|].
      destruct (decide (i = (max_func st - 1)%nat)) as [Heq|Hne].
      * exists h. rewrite <- Heq. apply list_lookup_insert_eq. lia.
      * exists h'. rewrite list_lookup_insert_ne by exact Hne. exact Hh'.
Qed.

Lemma top_occupied_really_unregister f st :
  bg_wf st → top_occupied st → top_occupied (really_unregister_func f st).2.
Proof.
  intros Hwf Htop.
  destruct (really_unregister_func_cases f st Hwf) as [[-> _]|(i & Hi & _)]; [exact Htop|].
  rewrite (really_unregister_func_found _ _ _ Hi).
  destruct Hwf as (Hlen & _ & Hmf). destruct Hi as (Hlt & _).
  unfold top_occupied.
  case_bool_decide as Hlast; cbn [snd funcs max_func set_funcs set_max_func].
  - destruct (shrink_max_func_spec (<[i:=NULL]> (funcs st)) (max_func st) ltac:(lia))
      as (_ & _ & [Hz|[h Hh]]); [left; exact Hz | right].
    exists h. apply total_lookup_handle. exact Hh.
  - destruct Htop as [Hz|[h Hh]]; [lia|]. right. exists h.
    rewrite list_lookup_insert_ne by lia. exact Hh.
Qed.

Lemma bg_wf_top_really_unregister f st :
  bg_wf st ∧ top_occupied st →
  bg_wf (really_unregister_func f st).2 ∧ top_occupied (really_unregister_func f st).2.
Proof.
  intros [Hwf Htop]. split;
    [apply bg_wf_really_unregister | apply top_occupied_really_unregister]; assumption.
Qed.

Lemma top_occupied_exec o st st' :
  bg_inv st → top_occupied st → registers_nonnull [o] = true →
  exec o st = Some st' → top_occupied st'.
Proof.
  intros (Hwf & Htr & Hq) Htop Hnn Hexec.
  destruct o as [past [h|]|busy f|past|c]; cbn [exec] in Hexec.
  - injection Hexec as <-. apply top_occupied_register; assumption.
  - discriminate Hnn.
  - injection Hexec as <-. unfold bg_man_pthreads_unregister_func. destruct busy.
    + case_bool_decide; exact Htop.
    + apply top_occupied_really_unregister; assumption.
  - rewrite (threadfunc_reap_result past st st' Hq Hexec).
    apply (top_occupied_same_table
             (unregister_each (occupants (stale_funcs st)) st)); try reflexivity.
    apply (unregister_each_preserves (λ s, bg_wf s ∧ top_occupied s)
             (λ f s, bg_wf_top_really_unregister f s)). split; assumption.
  - injection Hexec as <-.
    apply (top_occupied_same_table st); [| |exact Htop];
      destruct c; simpl; auto using funcs_enable, max_func_enable.
Qed.

Lemma threadfunc_reap_room past st :
  queue_ok st → (length (occupants (stale_funcs st)) < MAX_FUNCS)%nat →
  (threadfunc_reap past st).1 =
  Some (set_stale_funcs (replicate MAX_FUNCS NULL)
          (unregister_each (occupants (stale_funcs st)) st)).
Proof.
  intros (hs & Hlen & Hshape) Hroom. rewrite Hshape, occupants_packed in *.
  rewrite (threadfunc_reap_queue past hs st Hlen Hshape) by (intros; lia). reflexivity.
Qed.

Lemma queue_room st :
  queue_ok st → ¬ all_occupied (stale_funcs st) →
  (length (occupants (stale_funcs st)) < MAX_FUNCS)%nat.
Proof.
  intros (hs & Hlen & Hshape) Hroom. rewrite Hshape, occupants_packed.
  destruct (decide (length hs = MAX_FUNCS)) as [Hfull|]; [|lia].
  exfalso. apply Hroom. rewrite Hshape. apply all_occupied_packed. exact Hfull.
Qed.

Lemma exec_with_room o st :
  bg_inv st → reaps_with_room [o] st = true → ∃ st', exec o st = Some st'.
Proof.
  intros (_ & _ & Hq) Hroom. destruct o as [past f|busy f|past|c]; cbn [exec]; eauto.
  cbn [reaps_with_room] in Hroom. apply andb_true_iff in Hroom. destruct Hroom as [Hroom _].
  apply bool_decide_eq_true in Hroom.
  rewrite (threadfunc_reap_room past st Hq Hroom). eauto.
Qed.

Lemma reaps_with_room_cons o ops st :
  reaps_with_room (o :: ops) st = true →
  reaps_with_room [o] st = true ∧
  ∀ st', exec o st = Some st' → reaps_with_room ops st' = true.
Proof.
  cbn [reaps_with_room]. intros H. apply andb_true_iff in H. destruct H as [H1 H2].
  split.
  - rewrite H1. destruct (exec o st); reflexivity.
  - intros st' Hexec. rewrite Hexec in H2. exact H2.
Qed.

(** X1: calls that register no null pointer and run the reaping loop
    only while [stale_funcs] has an empty cell all return, and in the
    state they produce from the initial state [max_func] is zero or the
    cell just below it is occupied, and every cell from [max_func] on
    is empty: [max_func] is exactly the "highest+1 used entry". *)
Theorem max_func_is_highest_used_plus_one (ops : list op) :
  registers_nonnull ops = true →
  reaps_with_room ops bg_man_pthreads_init = true →
  ∃ st, run ops bg_man_pthreads_init = Some st ∧ top_occupied st ∧ trailing_empty st.
Proof.
  intros Hnn Hroom.
  assert (Hgen : ∀ ops s, bg_inv s → top_occupied s → registers_nonnull ops = true →
                 reaps_with_room ops s = true →
                 ∃ s', run ops s = Some s' ∧ top_occupied s' ∧ trailing_empty s').
  { clear. induction ops as [|o ops IH]; intros s Hinv Htop Hnn Hroom; cbn [run].
    - exists s. split; [reflexivity|]. split; [exact Htop | apply Hinv].
    - destruct (reaps_with_room_cons _ _ _ Hroom) as [Ho Hrest].
      destruct (exec_with_room o s Hinv Ho) as [s1 Hexec]. rewrite Hexec.
      unfold registers_nonnull in Hnn. cbn [forallb] in Hnn.
      apply andb_true_iff in Hnn. destruct Hnn as [Hn Hnrest].
      apply (IH s1); [exact (bg_inv_exec _ _ _ Hinv Hexec) | | exact Hnrest
                     | exact (Hrest s1 Hexec)].
      apply (top_occupied_exec o s s1 Hinv Htop); [|exact Hexec].
      unfold registers_nonnull. cbn [forallb]. rewrite Hn. reflexivity. }
  exact (Hgen ops _ bg_inv_init top_occupied_init Hnn Hroom).
Qed.

Lemma max_func_is_highest_used_plus_one_witness :
  ∃ st, run [Register NULL (Some 1%positive); Register NULL (Some 2%positive);
             Register NULL (Some 3%positive); Unregister true (Some 2%positive);
             Reap NULL; Unregister false (Some 3%positive)] bg_man_pthreads_init
        = Some st ∧ top_occupied st ∧ trailing_empty st.
Proof.
  exact (max_func_is_highest_used_plus_one
           [Register NULL (Some 1%positive); Register NULL (Some 2%positive);
            Register NULL (Some 3%positive); Unregister true (Some 2%positive);
            Reap NULL; Unregister false (Some 3%positive)]
           ltac:(vm_compute; reflexivity) ltac:(vm_compute; reflexivity)).
Defined.

(** ** Registration followed by removal *)

Lemma registered_in_table f st : registered f st → f ∈ funcs st.
Proof. intros (i & _ & Hat). exact (list_elem_of_lookup_2 _ _ _ Hat). Qed.

Lemma in_table_registered h st :
  bg_wf st → trailing_empty st → Some h ∈ funcs st → registered (Some h) st.
Proof.
  intros (Hlen & _) Htr Hin. apply list_elem_of_lookup_1 in Hin. destruct Hin as [i Hat].
  exists i. split; [|exact Hat].
  destruct (le_lt_dec (max_func st) i) as [Hge|]; [|assumption].
  pose proof (lookup_lt_Some _ _ _ Hat) as Hi.
  rewrite (Htr i Hge ltac:(lia)) in Hat. discriminate.
Qed.

Lemma really_unregister_func_registered f st :
  bg_wf st → registered f st → (really_unregister_func f st).1 = 0.
Proof.
  intros Hwf Hreg. destruct (registered_first_holding _ _ Hreg) as (i & Hi).
  rewrite (really_unregister_func_found _ _ _ Hi). reflexivity.
Qed.

Lemma unregister_func_registered busy f st :
  bg_wf st → registered f st → (bg_man_pthreads_unregister_func busy f st).1 = 0.
Proof.
  intros Hwf Hreg. unfold bg_man_pthreads_unregister_func. destruct busy.
  - destruct (registered_first_holding _ _ Hreg) as (i & Hi).
    rewrite (find_func_found _ _ _ _ Hi). destruct Hi as (Hlt & _).
    rewrite bool_decide_eq_false_2 by lia. reflexivity.
  - apply really_unregister_func_registered; assumption.
Qed.

Lemma register_func_registers past f st :
  bg_wf st → trailing_empty st → (bg_man_pthreads_register_func past f st).1 = 0 →
  registered f (bg_man_pthreads_register_func past f st).2.
Proof.
  intros Hwf Htr Hret. pose proof Hwf as (Hlen & _).
  destruct (first_empty_or_full (funcs st) past Hlen) as [[_ Hfull]|Hfree].
  - destruct (register_func_full past f st Hwf Hfull) as (Hm1 & _).
    rewrite Hm1 in Hret. discriminate.
  - destruct (register_func_free past f st _ Hwf Hfree) as (_ & Hf & _ & Hm).
    pose proof (first_empty_le_max_func _ _ Hlen Htr Hfree) as Hle.
    destruct (first_free_empty _ past _ Hlen Hfree) as [_ Hi].
    set (i := (first_free (funcs st) past MAX_FUNCS 0).1) in *.
    exists i. rewrite Hf, Hm. split.
    + case_bool_decide; lia.
    + apply list_lookup_insert_eq. lia.
Qed.

(** X2: a registration that returns 0 leaves the callback in a cell
    below [max_func], so that unregistering it next returns 0, on the
    immediate path and on the deferred path alike. *)
Theorem registered_callback_can_be_unregistered
    (past f : bg_func) (busy : bool) (st : bg_state) :
  bg_wf st → trailing_empty st →
  (bg_man_pthreads_register_func past f st).1 = 0 →
  registered f (bg_man_pthreads_register_func past f st).2 ∧
  (bg_man_pthreads_unregister_func busy f
     (bg_man_pthreads_register_func past f st).2).1 = 0.
Proof.
  intros Hwf Htr Hret.
  pose proof (register_func_registers past f st Hwf Htr Hret) as Hreg.
  split; [exact Hreg|].
  apply unregister_func_registered; [apply bg_wf_register; exact Hwf | exact Hreg].
Qed.

Lemma registered_callback_can_be_unregistered_witness :
  (bg_man_pthreads_unregister_func true (Some 4%positive)
     (bg_man_pthreads_register_func NULL (Some 4%positive) bg_man_pthreads_init).2).1 = 0.
Proof.
  assert (Hwf : bg_wf bg_man_pthreads_init)
    by (split; [reflexivity | split; [reflexivity | vm_compute; lia]]).
  assert (Htr : trailing_empty bg_man_pthreads_init).
  { intros i _ Hi. unfold bg_man_pthreads_init. cbn [funcs].
    apply lookup_replicate_2. exact Hi. }
  exact (proj2 (registered_callback_can_be_unregistered NULL (Some 4%positive) true
                  bg_man_pthreads_init Hwf Htr eq_refl)).
Defined.



(** ** What a removal leaves *)

Lemma really_unregister_func_clears h st :
  bg_wf st → at_most_once st →
  (really_unregister_func (Some h) st).1 = 0 →
  Some h ∉ funcs (really_unregister_func (Some h) st).2.
Proof.
  intros Hwf Hone Hret.
  destruct (really_unregister_func_cases (Some h) st Hwf) as [[Heq _]|(i & Hi & _)].
  { rewrite Heq in Hret. discriminate. }
  assert (Hf : funcs (really_unregister_func (Some h) st).2 = <[i:=NULL]> (funcs st)).
  { rewrite (really_unregister_func_found _ _ _ Hi). case_bool_decide; reflexivity. }
  rewrite Hf. intros Hin. apply list_elem_of_lookup_1 in Hin. destruct Hin as [j Hj].
  apply list_lookup_insert_Some in Hj. destruct Hj as [(_ & Hj & _)|(Hne & Hj)].
  - discriminate.
  - destruct Hi as (_ & Hat & _). apply Hne. exact (Hone _ _ _ Hat Hj).
Qed.

(** X4: when no callback is in two cells, an immediate removal that
    returns 0 leaves the callback in no cell of the table, and
    unregistering it again, on either path, returns -1 and changes
    nothing. *)
Theorem unregistered_callback_is_gone (busy : bool) (h : handle) (st : bg_state) :
  bg_wf st → at_most_once st →
  (really_unregister_func (Some h) st).1 = 0 →
  (Some h ∉ funcs (really_unregister_func (Some h) st).2) ∧
  bg_man_pthreads_unregister_func busy (Some h) (really_unregister_func (Some h) st).2
    = (-1, (really_unregister_func (Some h) st).2).
Proof.
  intros Hwf Hone Hret.
  pose proof (really_unregister_func_clears h st Hwf Hone Hret) as Hgone.
  split; [exact Hgone | apply unregister_func_not_in_table; exact Hgone].
Qed.

Lemma unregistered_callback_is_gone_witness :
  bg_man_pthreads_unregister_func true (Some 2%positive)
    (really_unregister_func (Some 2%positive)
       (bg_man_pthreads_register_func NULL (Some 2%positive) bg_man_pthreads_init).2).2
  = (-1, (really_unregister_func (Some 2%positive)
            (bg_man_pthreads_register_func NULL (Some 2%positive)
               bg_man_pthreads_init).2).2).
Proof.
  assert (Hwf : bg_wf (bg_man_pthreads_register_func NULL (Some 2%positive)
                         bg_man_pthreads_init).2)
    by (split; [reflexivity | split; [reflexivity | vm_compute; lia]]).
  assert (Hone : at_most_once (bg_man_pthreads_register_func NULL (Some 2%positive)
                                 bg_man_pthreads_init).2).
  { intros i j h' Hi Hj.
    destruct i as [|i]; [|vm_compute in Hi; repeat (destruct i as [|i]; try discriminate)].
    destruct j as [|j]; [reflexivity|].
    vm_compute in Hj; repeat (destruct j as [|j]; try discriminate). }
  exact (proj2 (unregistered_callback_is_gone true 2%positive _ Hwf Hone eq_refl)).
Defined.

(** ** Other callbacks are left alone *)


Lemma registered_really_unregister f h st :
  bg_wf st → f ≠ Some h →
  (registered (Some h) (really_unregister_func f st).2 ↔ registered (Some h) st).
Proof.
  intros Hwf Hne.
  destruct (really_unregister_func_cases f st Hwf) as [[-> _]|(i & Hi & _)]; [reflexivity|].
  rewrite (really_unregister_func_found _ _ _ Hi).
  destruct Hwf as (Hlen & _ & Hmf). destruct Hi as (Hlt & Hati & _).
  split.
  - intros (j & Hj & Hat).
    assert (Hat' : <[i:=NULL]> (funcs st) !! j = Some (Some h))
      by (revert Hat; case_bool_decide; exact id).
    apply list_lookup_insert_Some in Hat'.
    destruct Hat' as [(_ & Hat' & _)|(Hji & Hat')]; [discriminate|].
    exists j. split; [|exact Hat'].
    revert Hj. case_bool_decide; cbn [snd max_func set_max_func set_funcs]; [|exact id].
    destruct (shrink_max_func_spec (<[i:=NULL]> (funcs st)) (max_func st) ltac:(lia)). lia.
  - intros (j & Hj & Hat).
    assert (Hji : i ≠ j) by (intros ->; rewrite Hati in Hat; congruence).
    assert (Hat' : <[i:=NULL]> (funcs st) !! j = Some (Some h))
      by (rewrite list_lookup_insert_ne by exact Hji; exact Hat).
    exists j. case_bool_decide as Hlast; cbn [snd funcs max_func set_max_func set_funcs];
      (split; [|exact Hat']); [|exact Hj].
    destruct (shrink_max_func_spec (<[i:=NULL]> (funcs st)) (max_func st) ltac:(lia))
      as (_ & Hnull & _).
    destruct (le_lt_dec (shrink_max_func (<[i:=NULL]> (funcs st)) (max_func st)) j)
      as [Hge|]; [|assumption].
    exfalso. specialize (Hnull j Hge ltac:(lia)).
    apply list_lookup_total_correct in Hat'. rewrite Hat' in Hnull. discriminate.
Qed.



(** ** Counting the occupied cells *)







(** ** A freed cell is used again *)

(** X7: after an immediate removal that returns 0, a registration
    returns 0, and the callback goes into the first empty cell, which is
    the cell just freed or one below it. *)
Theorem freed_cell_is_reused (past f g : bg_func) (st : bg_state) (i : nat) :
  bg_wf st → first_holding (funcs st) (max_func st) f i →
  (bg_man_pthreads_register_func past g (really_unregister_func f st).2).1 = 0 ∧
  ∃ k, (k ≤ i)%nat ∧
       first_empty (funcs (really_unregister_func f st).2) k ∧
       funcs (bg_man_pthreads_register_func past g (really_unregister_func f st).2).2
         = <[k:=g]> (funcs (really_unregister_func f st).2).
Proof.
  intros Hwf Hi. pose proof (bg_wf_really_unregister f st Hwf) as Hwf'.
  assert (Hf : funcs (really_unregister_func f st).2 = <[i:=NULL]> (funcs st)).
  { rewrite (really_unregister_func_found _ _ _ Hi). case_bool_decide; reflexivity. }
  assert (Hnull : funcs (really_unregister_func f st).2 !! i = Some NULL).
  { rewrite Hf. apply list_lookup_insert_eq.
    destruct Hwf as (Hlen & _ & Hmf). destruct Hi as (Hlt & _). lia. }
  set (st' := (really_unregister_func f st).2) in *.
  pose proof Hwf' as (Hlen' & _).
  destruct (first_empty_or_full (funcs st') past Hlen') as [[_ Hfull]|Hfree].
  - exfalso. apply lookup_lt_Some in Hnull as Hlt.
    destruct (Hfull i ltac:(lia)) as [h Hh]. rewrite Hnull in Hh. discriminate.
  - destruct (register_func_free past g st' _ Hwf' Hfree) as (Hret & Hf' & _).
    split; [exact Hret|].
    exists (first_free (funcs st') past MAX_FUNCS 0).1.
    split; [|split; [exact Hfree | exact Hf']].
    destruct (le_lt_dec (first_free (funcs st') past MAX_FUNCS 0).1 i) as [|Hgt];
      [assumption|].
    exfalso. destruct Hfree as [_ Hocc]. destruct (Hocc i Hgt) as [h Hh].
    rewrite Hnull in Hh. discriminate.
Qed.

Lemma freed_cell_is_reused_witness :
  (bg_man_pthreads_register_func NULL (Some 8%positive)
     (really_unregister_func (Some 1%positive)
        (run_table [CallRegister NULL (Some 1%positive);
                    CallRegister NULL (Some 2%positive)] bg_man_pthreads_init)).2).1 = 0.
Proof.
  assert (Hwf : bg_wf (run_table [CallRegister NULL (Some 1%positive);
                                  CallRegister NULL (Some 2%positive)]
                         bg_man_pthreads_init))
    by (split; [reflexivity | split; [reflexivity | vm_compute; lia]]).
  refine (proj1 (freed_cell_is_reused NULL (Some 1%positive) (Some 8%positive) _ 0%nat
                   Hwf _)).
  split; [vm_compute; lia | split; [reflexivity | intros j Hj; lia]].
Defined.

(** ** Registration and the gate *)

Lemma wrap_int_succ_pred c : int_range c → wrap_int (wrap_int (c + 1) - 1) = c.
Proof.
  intros Hc. replace (wrap_int (c + 1) - 1) with (wrap_int (c + 1) + -1) by lia.
  rewrite wrap_int_add_l. replace (c + 1 + -1) with c by lia.
  apply wrap_int_small. exact Hc.
Qed.

(** X8: a registration disables and enables the interrupts around its
    scan: it leaves [cli_count] as it found it, and it signals
    [cli_cond] exactly when it found the count at zero. *)
Theorem register_func_restores_gate (past f : bg_func) (st : bg_state) :
  int_range (cli_count st) →
  cli_count (bg_man_pthreads_register_func past f st).2 = cli_count st ∧
  cond_signals (bg_man_pthreads_register_func past f st).2 =
    (if bool_decide (cli_count st = 0) then S (cond_signals st) else cond_signals st).
Proof.
  intros Hc. unfold bg_man_pthreads_register_func. cbv zeta.
  assert (Hen : ∀ s, cli_count s = wrap_int (cli_count st + 1) →
                     cond_signals s = cond_signals st →
                     cli_count (bg_man_pthreads_enable_interrupts s) = cli_count st ∧
                     cond_signals (bg_man_pthreads_enable_interrupts s) =
                       (if bool_decide (cli_count st = 0)
                        then S (cond_signals st) else cond_signals st)).
  { intros s Hs1 Hs2. unfold bg_man_pthreads_enable_interrupts.
    cbn [cli_count set_cli_count]. rewrite Hs1, (wrap_int_succ_pred _ Hc).
    case_bool_decide; cbn [cli_count cond_signals pthread_cond_signal set_cli_count];
      rewrite ?Hs1, ?Hs2, ?(wrap_int_succ_pred _ Hc); auto. }
  repeat case_bool_decide; cbn [snd]; apply Hen; reflexivity.
Qed.

Lemma register_func_restores_gate_witness :
  cli_count (bg_man_pthreads_register_func NULL (Some 1%positive)
               (bg_man_pthreads_disable_interrupts bg_man_pthreads_init)).2 = 1 ∧
  cond_signals (bg_man_pthreads_register_func NULL (Some 1%positive)
                  (bg_man_pthreads_disable_interrupts bg_man_pthreads_init)).2 = 0%nat.
Proof.
  assert (Hc : int_range (cli_count (bg_man_pthreads_disable_interrupts
                                       bg_man_pthreads_init)))
    by (vm_compute; split; discriminate).
  exact (register_func_restores_gate NULL (Some 1%positive)
           (bg_man_pthreads_disable_interrupts bg_man_pthreads_init) Hc).
Defined.

(** X9: an enable with no disable outstanding takes the count below
    zero without signalling; and whenever the count is below zero
    [bg_man_pthreads_interrupts_disabled] returns a true value although
    the driver thread, which waits only while the count is positive,
    does not wait. *)
Theorem unmatched_enable_reports_disabled (st : bg_state) :
  INT_MIN < cli_count st ≤ 0 →
  cli_count (bg_man_pthreads_enable_interrupts st) = cli_count st - 1 ∧
  cond_signals (bg_man_pthreads_enable_interrupts st) = cond_signals st ∧
  c_true (bg_man_pthreads_interrupts_disabled
            (bg_man_pthreads_enable_interrupts st)) = true ∧
  driver_waiting (driver_await_enabled (bg_man_pthreads_enable_interrupts st)) = false.
Proof.
  intros Hc.
  assert (Hw : wrap_int (cli_count st - 1) = cli_count st - 1).
  { apply wrap_int_small. unfold int_range, INT_MIN, INT_MAX in *. lia. }
  unfold bg_man_pthreads_enable_interrupts, driver_await_enabled,
    bg_man_pthreads_interrupts_disabled, c_true.
  cbn [cli_count set_cli_count]. rewrite Hw.
  rewrite (bool_decide_eq_false_2 (cli_count st - 1 = 0)) by lia.
  cbn [cli_count cond_signals driver_waiting set_cli_count].
  rewrite bool_decide_eq_false_2 by lia.
  destruct (Z.eqb_spec (cli_count st - 1) 0); [lia|]. auto.
Qed.

Lemma unmatched_enable_reports_disabled_witness :
  c_true (bg_man_pthreads_interrupts_disabled
            (bg_man_pthreads_enable_interrupts bg_man_pthreads_init)) = true ∧
  driver_waiting (driver_await_enabled
                    (bg_man_pthreads_enable_interrupts bg_man_pthreads_init)) = false.
Proof.
  assert (Hc : INT_MIN < cli_count bg_man_pthreads_init ≤ 0)
    by (vm_compute; split; [reflexivity | discriminate]).
  exact (proj2 (proj2 (unmatched_enable_reports_disabled bg_man_pthreads_init Hc))).
Defined.

(** ** Deferred removal and the reaping loop together *)

Lemma unregister_each_snoc hs h st :
  unregister_each (hs ++ [h]) st =
  (really_unregister_func (Some h) (unregister_each hs st)).2.
Proof. unfold unregister_each. rewrite foldl_app. reflexivity. Qed.

Lemma registered_set_stale f q st :
  registered f (set_stale_funcs q st) ↔ registered f st.
Proof. reflexivity. Qed.

Lemma registered_unregister_each h : ∀ hs st,
  bg_wf st → h ∉ hs →
  (registered (Some h) (unregister_each hs st) ↔ registered (Some h) st).
Proof.
  induction hs as [|g hs IH]; intros st Hwf Hnot; [reflexivity|].
  unfold unregister_each in *. cbn [foldl].
  rewrite IH.
  - apply registered_really_unregister; [exact Hwf|].
    intros [= ->]. apply Hnot. left.
  - apply bg_wf_really_unregister. exact Hwf.
  - intros Hin. apply Hnot. right. exact Hin.
Qed.

Lemma unregister_func_deferred_enqueues h hs st :
  bg_wf st → registered (Some h) st →
  stale_funcs st = packed hs → (length hs < MAX_FUNCS)%nat →
  bg_man_pthreads_unregister_func true (Some h) st
    = (0, set_stale_funcs (packed (hs ++ [h])) st).
Proof.
  intros Hwf Hreg Hshape Hroom. unfold bg_man_pthreads_unregister_func.
  destruct (registered_first_holding _ _ Hreg) as (i & Hi).
  rewrite (find_func_found _ _ _ _ Hi). destruct Hi as (Hlt & _).
  rewrite bool_decide_eq_false_2 by lia.
  rewrite Hshape, (put_stale_first_empty _ _ (length hs)); try lia.
  - rewrite packed_snoc by exact Hroom. reflexivity.
  - apply length_packed. lia.
  - apply first_empty_packed. exact Hroom.
Qed.

(** X10: in a state the calls can produce without registering a
    callback twice, unregistering a registered callback while
    [cli_mutex] is busy returns 0 and leaves it registered, and when
    [stale_funcs] had two empty cells or more - so that the request
    does not fill it - the next run of the reaping loop takes the
    callback out of the table and empties the queue, whatever lies
    behind the array. *)
Theorem deferred_removal_done_by_reaping
    (ops : list op) (st : bg_state) (h : handle) (past : bg_func) :
  run ops bg_man_pthreads_init = Some st →
  registers_fresh ops bg_man_pthreads_init = true →
  registered (Some h) st →
  (S (length (occupants (stale_funcs st))) < MAX_FUNCS)%nat →
  (bg_man_pthreads_unregister_func true (Some h) st).1 = 0 ∧
  registered (Some h) (bg_man_pthreads_unregister_func true (Some h) st).2 ∧
  ∃ st', run [Unregister true (Some h); Reap past] st = Some st' ∧
         (Some h ∉ funcs st') ∧
         stale_funcs st' = replicate MAX_FUNCS NULL.
Proof.
  intros Hrun Hfresh Hreg Hroom.
  pose proof (bg_inv_run _ _ _ bg_inv_init Hrun) as (Hwf & Htr & (hs & Hlen & Hshape)).
  pose proof (at_most_once_run _ _ _ bg_inv_init at_most_once_init Hfresh Hrun) as Hone.
  rewrite Hshape, occupants_packed in Hroom.
  assert (Hlt : (length hs < MAX_FUNCS)%nat) by lia.
  pose proof (unregister_func_deferred_enqueues h hs st Hwf Hreg Hshape Hlt) as Hunreg.
  rewrite Hunreg. cbn [fst snd].
  split; [reflexivity|]. split; [exact Hreg|].
  cbn [run exec]. rewrite Hunreg. cbn [snd].
  rewrite (threadfunc_reap_queue past (hs ++ [h])).
  - cbn [fst]. eexists. split; [reflexivity|].
    cbn [funcs stale_funcs set_stale_funcs]. split; [|reflexivity].
    rewrite unregister_each_set_stale. cbn [funcs set_stale_funcs].
    rewrite unregister_each_snoc.
    set (s := unregister_each hs st).
    destruct (unregister_each_preserves (λ s, bg_wf s ∧ trailing_empty s)
                (λ f s, bg_wf_trailing_really_unregister f s) hs st (conj Hwf Htr))
      as [Hwfs Htrs]. fold s in Hwfs, Htrs.
    assert (Hones : at_most_once s).
    { apply (unregister_each_preserves at_most_once); [|exact Hone].
      intros f s0. apply at_most_once_really_unregister. }
    destruct (really_unregister_func_cases (Some h) s Hwfs) as [[Heq Habs]|(i & Hi & Hret)].
    + rewrite Heq. cbn [snd]. intros Hin. apply Habs.
      apply in_table_registered; assumption.
    + apply really_unregister_func_clears; assumption.
  - rewrite length_app. simpl. lia.
  - reflexivity.
  - rewrite length_app. simpl. intros Hfull. lia.
Qed.

Lemma deferred_removal_done_by_reaping_witness :
  ∃ st', run [Unregister true (Some 1%positive); Reap (Some 7%positive)]
             (bg_man_pthreads_register_func NULL (Some 1%positive)
                bg_man_pthreads_init).2 = Some st' ∧
         (Some 1%positive ∉ funcs st').
Proof.
  assert (Hroom : (S (length (occupants
                     (stale_funcs (bg_man_pthreads_register_func NULL (Some 1%positive)
                                     bg_man_pthreads_init).2))) < MAX_FUNCS)%nat)
    by (vm_compute; lia).
  assert (Hreg : registered (Some 1%positive)
            (bg_man_pthreads_register_func NULL (Some 1%positive)
               bg_man_pthreads_init).2)
    by (exists 0%nat; split; [vm_compute; lia | reflexivity]).
  destruct (deferred_removal_done_by_reaping [Register NULL (Some 1%positive)] _
              1%positive (Some 7%positive) eq_refl eq_refl Hreg Hroom)
    as (_ & _ & st' & Hrun & Hgone & _).
  exists st'. split; [exact Hrun | exact Hgone].
Defined.

Lemma stale_funcs_exec_full o st st' :
  bg_wf st → all_occupied (stale_funcs st) → reap_free [o] = true →
  exec o st = Some st' → stale_funcs st' = stale_funcs st.
Proof.
  intros Hwf Hfull Hfree Hexec. destruct o as [past f|busy f|past|c]; cbn [exec] in Hexec.
  - injection Hexec as <-. apply stale_funcs_register. exact Hwf.
  - injection Hexec as <-. unfold bg_man_pthreads_unregister_func. destruct busy.
    + case_bool_decide; [reflexivity|]. cbn [snd stale_funcs set_stale_funcs].
      apply put_stale_full. exact Hfull.
    + apply stale_funcs_really_unregister.
  - discriminate Hfree.
  - injection Hexec as <-. destruct c; simpl; [reflexivity | apply stale_funcs_enable].
Qed.

Lemma bg_wf_exec_no_reap o st st' :
  bg_wf st → reap_free [o] = true → exec o st = Some st' → bg_wf st'.
Proof.
  intros Hwf Hfree Hexec. destruct o as [past f|busy f|past|c]; cbn [exec] in Hexec.
  - injection Hexec as <-. apply bg_wf_register. exact Hwf.
  - injection Hexec as <-. apply bg_wf_unregister. exact Hwf.
  - discriminate Hfree.
  - injection Hexec as <-. apply bg_wf_gate_step. exact Hwf.
Qed.

(** X11: once every cell of [stale_funcs] is occupied it stays so
    through any calls other than the reaping loop - registrations,
    unregistrations on either path, disables and enables, which all
    return - and every unregistration of a registered callback made
    after them while [cli_mutex] is busy returns 0 and changes nothing:
    nothing but the reaping loop takes a callback out of
    [stale_funcs], and a full queue records no request. *)
Theorem full_queue_records_no_request (ops : list op) (st : bg_state) (h : handle) :
  bg_wf st → all_occupied (stale_funcs st) → reap_free ops = true →
  ∃ st', run ops st = Some st' ∧
         stale_funcs st' = stale_funcs st ∧
         (registered (Some h) st' →
            bg_man_pthreads_unregister_func true (Some h) st' = (0, st')).
Proof.
  revert st. induction ops as [|o ops IH]; intros st Hwf Hfull Hfree; cbn [run].
  - exists st. split; [reflexivity|]. split; [reflexivity|].
    intros Hreg. unfold bg_man_pthreads_unregister_func.
    destruct (registered_first_holding _ _ Hreg) as (i & Hi).
    rewrite (find_func_found _ _ _ _ Hi). destruct Hi as (Hlt & _).
    rewrite bool_decide_eq_false_2 by lia.
    rewrite put_stale_full by exact Hfull. rewrite set_stale_same. reflexivity.
  - unfold reap_free in Hfree. cbn [forallb] in Hfree.
    apply andb_true_iff in Hfree. destruct Hfree as [Ho Hrest].
    assert (Ho' : reap_free [o] = true)
      by (unfold reap_free; cbn [forallb]; rewrite Ho; reflexivity).
    assert (Hsome : ∃ st1, exec o st = Some st1).
    { destruct o as [past f|busy f|past|c]; cbn [exec]; eauto. discriminate Ho. }
    destruct Hsome as [st1 Hexec]. rewrite Hexec.
    pose proof (stale_funcs_exec_full o st st1 Hwf Hfull Ho' Hexec) as Hsame.
    destruct (IH st1) as (st' & Hrun & Hs & Hlost).
    + exact (bg_wf_exec_no_reap o st st1 Hwf Ho' Hexec).
    + rewrite Hsame. exact Hfull.
    + exact Hrest.
    + exists st'. split; [exact Hrun|]. split; [rewrite Hs; exact Hsame | exact Hlost].
Qed.

Lemma full_queue_records_no_request_witness :
  ∃ st',
    run [Register NULL (Some 3%positive); Unregister true (Some 2%positive)]
        (BgState (Some 2%positive :: Some 1%positive :: replicate 14 NULL)
                 (replicate MAX_FUNCS (Some 1%positive)) 2 0 2 false) = Some st' ∧
    stale_funcs st' = replicate MAX_FUNCS (Some 1%positive) ∧
    bg_man_pthreads_unregister_func true (Some 3%positive) st' = (0, st').
Proof.
  set (st := BgState (Some 2%positive :: Some 1%positive :: replicate 14 NULL)
                     (replicate MAX_FUNCS (Some 1%positive)) 2 0 2 false).
  assert (Hwf : bg_wf st)
    by (split; [reflexivity | split; [reflexivity | vm_compute; lia]]).
  assert (Hfull : all_occupied (stale_funcs st)).
  { intros i Hi. exists 1%positive. apply lookup_replicate_2. exact Hi. }
  destruct (full_queue_records_no_request
              [Register NULL (Some 3%positive); Unregister true (Some 2%positive)]
              st 3%positive Hwf Hfull eq_refl) as (st' & Hrun & Hs & Hlost).
  exists st'. split; [exact Hrun|]. split; [exact Hs|].
  apply Hlost. assert (Hst' : Some st' = Some
      (BgState (Some 2%positive :: Some 1%positive :: Some 3%positive :: replicate 13 NULL)
               (replicate MAX_FUNCS (Some 1%positive)) 3 0 3 false))
    by (rewrite <- Hrun; vm_compute; reflexivity).
  injection Hst' as ->. exists 2%nat. split; [vm_compute; lia | reflexivity].
Defined.

(** * Further properties of the interval scaling *)

Section TickPasses.

Variable R : Z.
Hypothesis rate_range : 1 ≤ R ÷ 100 ≤ INT_MAX.

Lemma tick_batches_zero fuel : tick_batches R fuel 0 = Some [].
Proof. destruct fuel; reflexivity. Qed.

Lemma tick_batches_closed_form : ∀ fuel t,
  0 ≤ t < 2 ^ 64 → t ≤ Z.of_nat fuel →
  ∃ bs, tick_batches R fuel t = Some bs ∧
        Z.of_nat (length bs) = (t + chunk_limit R - 1) / chunk_limit R ∧
        sumZ bs = t / chunk_limit R * full_chunk_ticks R
                  + t mod chunk_limit R * (R ÷ 100) / 10000.
Proof.
  pose proof (chunk_limit_range R rate_range) as HC.
  induction fuel as [|k IH]; intros t Ht Hfuel.
  - assert (t = 0) as -> by lia. exists []. cbn [tick_batches length sumZ foldr].
    rewrite Z.eqb_refl. split; [reflexivity|].
    rewrite Zdiv_0_l, Zmod_0_l. cbn. split; [|reflexivity].
    symmetry. apply Z.div_small. lia.
  - destruct (Z.eq_dec t 0) as [->|Hne].
    + exists []. rewrite tick_batches_zero. split; [reflexivity|].
      rewrite Zdiv_0_l, Zmod_0_l. cbn. split; [|reflexivity].
      symmetry. apply Z.div_small. lia.
    + cbn [tick_batches]. rewrite (proj2 (Z.eqb_neq t 0) Hne).
      destruct (tick_pass_spec R rate_range t ltac:(lia)) as [-> Hi].
      destruct (Z_lt_le_dec t (chunk_limit R)) as [Hsmall|Hbig].
      * rewrite Z.min_l by lia. rewrite Z.sub_diag, tick_batches_zero.
        eexists. split; [reflexivity|]. cbn [length sumZ foldr].
        rewrite (Z.div_small t (chunk_limit R)), (Z.mod_small t (chunk_limit R)) by lia.
        split; [|lia].
        replace (t + chunk_limit R - 1) with (t - 1 + 1 * chunk_limit R) by lia.
        rewrite Z.div_add by lia. rewrite Z.div_small by lia. reflexivity.
      * rewrite Z.min_r by lia.
        destruct (IH (t - chunk_limit R) ltac:(lia) ltac:(lia)) as (bs & -> & Hlen & Hsum).
        eexists. split; [reflexivity|]. cbn [length sumZ foldr]. fold (sumZ bs).
        rewrite Nat2Z.inj_succ, Hlen, Hsum.
        replace (t - chunk_limit R) with (t + -1 * chunk_limit R) by lia.
        rewrite Z.div_add, Z_mod_plus_full by lia.
        replace (t + -1 * chunk_limit R + chunk_limit R - 1)
          with (t - 1) by lia.
        replace (t + chunk_limit R - 1) with (t - 1 + 1 * chunk_limit R) by lia.
        rewrite Z.div_add by lia. fold (full_chunk_ticks R). split; lia.
Qed.

Lemma remainder_ticks_le_full b :
  0 ≤ b ≤ chunk_limit R → 0 ≤ b * (R ÷ 100) / 10000 ≤ full_chunk_ticks R.
Proof.
  intros Hb. split.
  - apply Z.div_pos; [apply Z.mul_nonneg_nonneg; lia | lia].
  - unfold full_chunk_ticks. apply Z.div_le_mono; [lia|].
    apply Z.mul_le_mono_nonneg_r; lia.
Qed.

Lemma closed_form_monotone t t' :
  0 ≤ t ≤ t' →
  t / chunk_limit R * full_chunk_ticks R + t mod chunk_limit R * (R ÷ 100) / 10000
  ≤ t' / chunk_limit R * full_chunk_ticks R + t' mod chunk_limit R * (R ÷ 100) / 10000.
Proof.
  intros Ht. pose proof (chunk_limit_range R rate_range) as HC.
  pose proof (Z.mod_pos_bound t (chunk_limit R) ltac:(lia)) as Hb.
  pose proof (Z.mod_pos_bound t' (chunk_limit R) ltac:(lia)) as Hb'.
  pose proof (remainder_ticks_le_full (t mod chunk_limit R) ltac:(lia)) as Hg.
  pose proof (remainder_ticks_le_full (t' mod chunk_limit R) ltac:(lia)) as Hg'.
  pose proof (remainder_ticks_le_full (chunk_limit R) ltac:(lia)) as [HF _].
  fold (full_chunk_ticks R) in HF.
  pose proof (Z.div_le_mono t t' (chunk_limit R) ltac:(lia) ltac:(lia)) as Hq.
  destruct (Z.eq_dec (t / chunk_limit R) (t' / chunk_limit R)) as [Heq|Hneq].
  - rewrite Heq. apply Z.add_le_mono_l.
    apply Z.div_le_mono; [lia|]. apply Z.mul_le_mono_nonneg_r; [lia|].
    pose proof (Z.div_mod t (chunk_limit R) ltac:(lia)).
    pose proof (Z.div_mod t' (chunk_limit R) ltac:(lia)).
    rewrite Heq in *. lia.
  - assert (Hstep : (t / chunk_limit R + 1) * full_chunk_ticks R
                    ≤ t' / chunk_limit R * full_chunk_ticks R)
      by (apply Z.mul_le_mono_nonneg_r; lia).
    lia.
Qed.

End TickPasses.

(** X12: for a rate [R] with [R/100] between 1 and [INT_MAX], a pass of
    the loop over a non-zero interval takes a chunk of at least one
    microsecond and at most [INT_MAX/(R/100)]; the product
    [chunk * (R/100)] stays within [INT_MAX], so that nothing wraps; and
    the interval left is smaller by the chunk. *)
Theorem tick_pass_never_overflows (R t : Z) :
  1 ≤ R ÷ 100 ≤ INT_MAX → 0 < t < 2 ^ 64 →
  1 ≤ Z.min t (chunk_limit R) ≤ chunk_limit R ∧
  0 ≤ Z.min t (chunk_limit R) * (R ÷ 100) ≤ INT_MAX ∧
  tick_pass R t =
    (t - Z.min t (chunk_limit R), Z.min t (chunk_limit R) * (R ÷ 100) / 10000) ∧
  0 ≤ (tick_pass R t).1 < t.
Proof.
  intros HR Ht. destruct (tick_pass_spec R HR t Ht) as [Hpass Hi].
  split; [exact Hi|]. split; [apply chunk_product_range; [exact HR | lia]|].
  split; [exact Hpass|]. rewrite Hpass. cbn [fst]. lia.
Qed.

Lemma tick_pass_never_overflows_witness :
  tick_pass ALLEGRO_TIMERS_PER_SECOND 1000000 = (820009, 214747).
Proof.
  assert (HR : 1 ≤ ALLEGRO_TIMERS_PER_SECOND ÷ 100 ≤ INT_MAX)
    by (vm_compute; split; discriminate).
  assert (Ht : 0 < 1000000 < 2 ^ 64) by (vm_compute; split; reflexivity).
  exact (proj1 (proj2 (proj2 (tick_pass_never_overflows
                                ALLEGRO_TIMERS_PER_SECOND 1000000 HR Ht)))).
Defined.

(** X13: for such a rate the loop over an interval of [t] microseconds
    ends after [t] divided by [INT_MAX/(R/100)], rounded up, passes, and
    its ticks add up to the ticks of a full chunk for each full chunk in
    [t], plus the ticks of what is left over. *)
Theorem sample_ticks_closed_form (R t : Z) :
  1 ≤ R ÷ 100 ≤ INT_MAX → 0 ≤ t < 2 ^ 64 →
  ∃ bs, sample_batches R t = Some bs ∧
        Z.of_nat (length bs) = (t + chunk_limit R - 1) / chunk_limit R ∧
        sumZ bs = t / chunk_limit R * full_chunk_ticks R
                  + t mod chunk_limit R * (R ÷ 100) / 10000.
Proof.
  intros HR Ht. unfold sample_batches.
  apply (tick_batches_closed_form R HR); [exact Ht|]. rewrite Z2Nat.id; lia.
Qed.

Lemma sample_ticks_closed_form_witness :
  ∃ bs, sample_batches ALLEGRO_TIMERS_PER_SECOND 20 = Some bs ∧ sumZ bs = 23.
Proof.
  assert (HR : 1 ≤ ALLEGRO_TIMERS_PER_SECOND ÷ 100 ≤ INT_MAX)
    by (vm_compute; split; discriminate).
  assert (Ht : 0 ≤ 20 < 2 ^ 64) by (vm_compute; split; [discriminate | reflexivity]).
  destruct (sample_ticks_closed_form ALLEGRO_TIMERS_PER_SECOND 20 HR Ht)
    as (bs & Hbs & _ & Hsum).
  exists bs. split; [exact Hbs|]. rewrite Hsum. reflexivity.
Defined.

(** X14: for such a rate a longer interval never gives fewer ticks. *)
Theorem sample_ticks_monotone (R t t' : Z) :
  1 ≤ R ÷ 100 ≤ INT_MAX → 0 ≤ t → t ≤ t' → t' < 2 ^ 64 →
  ∃ bs bs', sample_batches R t = Some bs ∧ sample_batches R t' = Some bs' ∧
            sumZ bs ≤ sumZ bs'.
Proof.
  intros HR Ht Hle Ht'. unfold sample_batches.
  destruct (tick_batches_closed_form R HR (Z.to_nat t) t ltac:(lia)
              ltac:(rewrite Z2Nat.id; lia)) as (bs & Hbs & _ & Hsum).
  destruct (tick_batches_closed_form R HR (Z.to_nat t') t' ltac:(lia)
              ltac:(rewrite Z2Nat.id; lia)) as (bs' & Hbs' & _ & Hsum').
  exists bs, bs'. split; [exact Hbs|]. split; [exact Hbs'|].
  rewrite Hsum, Hsum'. apply (closed_form_monotone R HR). lia.
Qed.

Lemma sample_ticks_monotone_witness :
  ∃ bs bs', sample_batches ALLEGRO_TIMERS_PER_SECOND 7 = Some bs ∧
            sample_batches ALLEGRO_TIMERS_PER_SECOND 20 = Some bs' ∧
            sumZ bs ≤ sumZ bs'.
Proof.
  assert (HR : 1 ≤ ALLEGRO_TIMERS_PER_SECOND ÷ 100 ≤ INT_MAX)
    by (vm_compute; split; discriminate).
  exact (sample_ticks_monotone ALLEGRO_TIMERS_PER_SECOND 7 20 HR
           ltac:(discriminate) ltac:(discriminate) ltac:(reflexivity)).
Defined.

(** * The driver thread's pass over the callbacks *)

Lemma occupants_cons (x : bg_func) (a : list bg_func) :
  occupants (x :: a) = match x with Some h => h :: occupants a | None => occupants a end.
Proof. destruct x; reflexivity. Qed.

Section DriverPassFacts.

Variable callback : handle → bg_state → bg_state.

(** A callback runs while the driver thread holds [cli_mutex]: what it
    does through this file leaves [funcs] and [max_func] alone. *)
Hypothesis callback_keeps_table : ∀ h st,
  funcs (callback h st) = funcs st ∧ max_func (callback h st) = max_func st.

Lemma callbacks_keep_table hs : ∀ st,
  funcs (foldl (λ s h, callback h s) st hs) = funcs st ∧
  max_func (foldl (λ s h, callback h s) st hs) = max_func st.
Proof.
  induction hs as [|h hs IH]; intros st; [split; reflexivity|].
  cbn [foldl]. destruct (IH (callback h st)) as [-> ->]. apply callback_keeps_table.
Qed.

Lemma call_callbacks_spec : ∀ fuel n st,
  (max_func st ≤ length (funcs st))%nat → (max_func st ≤ fuel + n)%nat →
  call_callbacks callback fuel n st =
    Some (foldl (λ s h, callback h s) st
            (occupants (drop n (take (max_func st) (funcs st)))),
          occupants (drop n (take (max_func st) (funcs st)))).
Proof.
  induction fuel as [|k IH]; intros n st Hlen Hfuel.
  - cbn [call_callbacks]. rewrite bool_decide_eq_false_2 by lia.
    rewrite drop_ge by (rewrite length_take; lia). reflexivity.
  - cbn [call_callbacks]. case_bool_decide as Hn.
    + assert (Hat : take (max_func st) (funcs st) !! n = Some (funcs st !!! n)).
      { rewrite lookup_take_lt by exact Hn. apply total_lookup_inside. lia. }
      rewrite (drop_S _ _ _ Hat), occupants_cons.
      destruct (funcs st !!! n) as [h|].
      * destruct (callback_keeps_table h st) as [Hf Hm].
        rewrite (IH (S n) (callback h st)) by (rewrite ?Hf, ?Hm; lia).
        rewrite Hf, Hm. reflexivity.
      * apply IH; lia.
    + rewrite drop_ge by (rewrite length_take; lia). reflexivity.
Qed.

End DriverPassFacts.

Lemma call_callbacks_calls_registered
    (callback : handle → bg_state → bg_state) :
  (∀ h s, funcs (callback h s) = funcs s ∧ max_func (callback h s) = max_func s) →
  ∀ st, bg_wf st →
  ∃ st', call_callbacks callback MAX_FUNCS 0 st = Some (st', registered_callbacks st) ∧
         st' = foldl (λ s h, callback h s) st (registered_callbacks st) ∧
         funcs st' = funcs st ∧ max_func st' = max_func st.
Proof.
  intros Hkeeps st (Hlen & _ & Hmf).
  rewrite (call_callbacks_spec callback Hkeeps MAX_FUNCS 0 st) by lia.
  rewrite drop_0. fold (registered_callbacks st).
  eexists. split; [reflexivity|]. split; [reflexivity|].
  destruct (callbacks_keep_table callback Hkeeps (registered_callbacks st) st) as [-> ->].
  split; reflexivity.
Qed.

(** X15: when the callbacks leave [funcs] and [max_func] alone, the loop
    that calls them ends, having called, once each and in cell order,
    exactly the callbacks in the cells below [max_func], the empty cells
    being skipped; the table is as it was. *)
Theorem every_registered_callback_is_called
    (callback : handle → bg_state → bg_state) (st : bg_state) :
  (∀ h s, funcs (callback h s) = funcs s ∧ max_func (callback h s) = max_func s) →
  bg_wf st →
  ∃ st', call_callbacks callback MAX_FUNCS 0 st = Some (st', registered_callbacks st) ∧
         st' = foldl (λ s h, callback h s) st (registered_callbacks st) ∧
         funcs st' = funcs st ∧ max_func st' = max_func st ∧
         (∀ h, h ∈ registered_callbacks st ↔ registered (Some h) st).
Proof.
  intros Hkeeps (Hlen & _ & Hmf).
  rewrite (call_callbacks_spec callback Hkeeps MAX_FUNCS 0 st) by lia.
  rewrite drop_0. fold (registered_callbacks st).
  eexists. split; [reflexivity|]. split; [reflexivity|].
  destruct (callbacks_keep_table callback Hkeeps (registered_callbacks st) st) as [-> ->].
  split; [reflexivity|]. split; [reflexivity|].
  intros h. unfold registered_callbacks, occupants, registered.
  rewrite list_elem_of_omap. split.
  - intros (x & Hin & Hx). cbn in Hx. subst x.
    apply list_elem_of_lookup_1 in Hin. destruct Hin as [i Hi].
    apply lookup_take_Some in Hi. destruct Hi as [Hi Hlt]. eauto.
  - intros (i & Hlt & Hi). exists (Some h). split; [|reflexivity].
    apply (list_elem_of_lookup_2 _ i). rewrite lookup_take_lt by exact Hlt. exact Hi.
Qed.

Lemma every_registered_callback_is_called_witness :
  ∃ st', call_callbacks (λ _ s, s) MAX_FUNCS 0
           (run_table [CallRegister NULL (Some 1%positive);
                       CallRegister NULL (Some 2%positive);
                       CallRegister NULL (Some 3%positive);
                       CallReallyUnregister (Some 2%positive)] bg_man_pthreads_init)
         = Some (st', [1%positive; 3%positive]).
Proof.
  assert (Hwf : bg_wf (run_table [CallRegister NULL (Some 1%positive);
                                  CallRegister NULL (Some 2%positive);
                                  CallRegister NULL (Some 3%positive);
                                  CallReallyUnregister (Some 2%positive)]
                         bg_man_pthreads_init))
    by (split; [reflexivity | split; [reflexivity | vm_compute; lia]]).
  destruct (every_registered_callback_is_called (λ _ s, s) _
              (λ _ _, conj eq_refl eq_refl) Hwf) as (st' & Hcall & _).
  exists st'. exact Hcall.
Defined.

(** ** The gate and the pass *)

Lemma run_gate_count calls st0 :
  cli_count st0 = 0 → (enables calls ≤ disables calls)%nat →
  Z.of_nat (disables calls) - Z.of_nat (enables calls) ≤ INT_MAX →
  cli_count (run_gate calls st0) = Z.of_nat (disables calls) - Z.of_nat (enables calls).
Proof.
  intros H0 HMN Hmax.
  rewrite <- (wrap_int_small (cli_count (run_gate calls st0))).
  - rewrite cli_count_run_gate, H0. apply wrap_int_small.
    unfold int_range, INT_MIN. lia.
  - apply cli_count_run_gate_range. rewrite H0. unfold int_range, INT_MIN, INT_MAX. lia.
Qed.

Lemma run_gate_keeps_table calls : ∀ st,
  funcs (run_gate calls st) = funcs st ∧ stale_funcs (run_gate calls st) = stale_funcs st ∧
  max_func (run_gate calls st) = max_func st.
Proof.
  induction calls as [|c calls IH]; intros st; [auto|].
  change (run_gate (c :: calls) st) with (run_gate calls (gate_step st c)).
  destruct (IH (gate_step st c)) as (-> & -> & ->).
  destruct c; simpl; auto using funcs_enable, stale_funcs_enable, max_func_enable.
Qed.

(** X16: after calls of disable and enable made from a zero count, the
    driver thread's pass calls no callback and is left waiting as long
    as more disables than enables have been made; once they are equal
    in number it calls every registered callback. *)
Theorem driver_pass_waits_while_disabled
    (callback : handle → bg_state → bg_state) (past : bg_func)
    (calls : list gate_call) (st0 : bg_state) :
  (∀ h s, funcs (callback h s) = funcs s ∧ max_func (callback h s) = max_func s) →
  bg_wf st0 → cli_count st0 = 0 →
  (enables calls ≤ disables calls)%nat →
  Z.of_nat (disables calls) - Z.of_nat (enables calls) ≤ INT_MAX →
  ((enables calls < disables calls)%nat →
     threadfunc_pass callback past (run_gate calls st0)
       = Some (PassWaits (driver_await_enabled (run_gate calls st0))) ∧
     driver_waiting (driver_await_enabled (run_gate calls st0)) = true) ∧
  (enables calls = disables calls →
     ∃ r, threadfunc_pass callback past (run_gate calls st0)
            = Some (PassEnds r (registered_callbacks st0))).
Proof.
  intros Hkeeps Hwf H0 HMN Hmax.
  pose proof (run_gate_count calls st0 H0 HMN Hmax) as Hc.
  destruct (run_gate_keeps_table calls st0) as (Hf & Hs & Hm).
  unfold threadfunc_pass. cbv zeta. split.
  - intros Hlt.
    assert (Hw : driver_waiting (driver_await_enabled (run_gate calls st0)) = true).
    { unfold driver_await_enabled. cbn [driver_waiting].
      apply bool_decide_eq_true_2. lia. }
    rewrite Hw. auto.
  - intros Heq.
    assert (Hw : driver_waiting (driver_await_enabled (run_gate calls st0)) = false).
    { unfold driver_await_enabled. cbn [driver_waiting].
      apply bool_decide_eq_false_2. lia. }
    rewrite Hw.
    assert (Hwf1 : bg_wf (driver_await_enabled (run_gate calls st0))).
    { apply (bg_wf_same_table st0); [exact Hf | exact Hs | exact Hm | exact Hwf]. }
    destruct (call_callbacks_calls_registered callback Hkeeps _ Hwf1)
      as (st' & Hcall & _).
    rewrite Hcall. eexists. f_equal. f_equal.
    unfold registered_callbacks, driver_await_enabled. cbn [funcs max_func].
    rewrite Hf, Hm. reflexivity.
Qed.

Lemma driver_pass_waits_while_disabled_witness :
  threadfunc_pass (λ _ s, s) NULL
    (run_gate [CallDisable; CallDisable; CallEnable] bg_man_pthreads_init)
  = Some (PassWaits (driver_await_enabled
                       (run_gate [CallDisable; CallDisable; CallEnable]
                                 bg_man_pthreads_init))).
Proof.
  assert (Hwf : bg_wf bg_man_pthreads_init)
    by (split; [reflexivity | split; [reflexivity | vm_compute; lia]]).
  assert (H1 : (enables [CallDisable; CallDisable; CallEnable]
                  ≤ disables [CallDisable; CallDisable; CallEnable])%nat)
    by (vm_compute; lia).
  assert (H2 : Z.of_nat (disables [CallDisable; CallDisable; CallEnable])
               - Z.of_nat (enables [CallDisable; CallDisable; CallEnable]) ≤ INT_MAX)
    by (vm_compute; discriminate).
  assert (H3 : (enables [CallDisable; CallDisable; CallEnable]
                  < disables [CallDisable; CallDisable; CallEnable])%nat)
    by (vm_compute; lia).
  exact (proj1 (proj1 (driver_pass_waits_while_disabled (λ _ s, s) NULL
                         [CallDisable; CallDisable; CallEnable] bg_man_pthreads_init
                         (λ _ _, conj eq_refl eq_refl) Hwf eq_refl H1 H2) H3)).
Defined.

(** ** What reaping leaves of the queued callbacks *)

Lemma not_in_table_really_unregister f h st :
  Some h ∉ funcs st → Some h ∉ funcs (really_unregister_func f st).2.
Proof.
  intros Habs. destruct (funcs_really_unregister f st) as [->|(i & ->)]; [exact Habs|].
  intros Hin. apply list_elem_of_lookup_1 in Hin. destruct Hin as [j Hj].
  apply list_lookup_insert_Some in Hj. destruct Hj as [(_ & Hj & _)|(_ & Hj)].
  - discriminate.
  - apply Habs. exact (list_elem_of_lookup_2 _ _ _ Hj).
Qed.

Lemma not_in_table_unregister_each h hs : ∀ st,
  Some h ∉ funcs st → Some h ∉ funcs (unregister_each hs st).
Proof.
  induction hs as [|g hs IH]; intros st Habs; [exact Habs|].
  unfold unregister_each in *. cbn [foldl]. apply IH.
  apply not_in_table_really_unregister. exact Habs.
Qed.

Lemma really_unregister_func_leaves_none h st :
  bg_wf st → trailing_empty st → at_most_once st →
  Some h ∉ funcs (really_unregister_func (Some h) st).2.
Proof.
  intros Hwf Htr Hone.
  destruct (really_unregister_func_cases (Some h) st Hwf) as [[Heq Habs]|(i & Hi & Hret)].
  - rewrite Heq. cbn [snd]. intros Hin. apply Habs.
    apply in_table_registered; assumption.
  - apply really_unregister_func_clears; assumption.
Qed.

Lemma unregister_each_removes h hs st :
  bg_wf st → trailing_empty st → at_most_once st → h ∈ hs →
  Some h ∉ funcs (unregister_each hs st).
Proof.
  intros Hwf Htr Hone Hin.
  apply list_elem_of_split in Hin. destruct Hin as (l1 & l2 & ->).
  unfold unregister_each. rewrite foldl_app. cbn [foldl].
  fold (unregister_each l1 st).
  set (s := unregister_each l1 st).
  fold (unregister_each l2 (really_unregister_func (Some h) s).2).
  apply not_in_table_unregister_each.
  destruct (unregister_each_preserves (λ s, bg_wf s ∧ trailing_empty s)
              (λ f s, bg_wf_trailing_really_unregister f s) l1 st (conj Hwf Htr))
    as [Hwfs Htrs].
  apply really_unregister_func_leaves_none; [exact Hwfs | exact Htrs |].
  apply (unregister_each_preserves at_most_once); [|exact Hone].
  intros f s0. apply at_most_once_really_unregister.
Qed.

(** X17: in a state the calls can produce without registering a
    callback twice, and in which [stale_funcs] has an empty cell, the
    reaping loop ends inside the array whatever lies behind it; after
    it no callback that was in [stale_funcs] is in the table any more,
    while every callback that was not in [stale_funcs] is registered
    exactly if it was before. *)
Theorem reaping_removes_exactly_the_queued
    (ops : list op) (st : bg_state) (past : bg_func) :
  run ops bg_man_pthreads_init = Some st →
  registers_fresh ops bg_man_pthreads_init = true →
  ¬ all_occupied (stale_funcs st) →
  ∃ st', (threadfunc_reap past st).1 = Some st' ∧
         (∀ h, h ∈ occupants (stale_funcs st) → Some h ∉ funcs st') ∧
         (∀ h, h ∉ occupants (stale_funcs st) →
               (registered (Some h) st' ↔ registered (Some h) st)).
Proof.
  intros Hrun Hfresh Hroom.
  pose proof (bg_inv_run _ _ _ bg_inv_init Hrun) as (Hwf & Htr & Hq).
  pose proof (at_most_once_run _ _ _ bg_inv_init at_most_once_init Hfresh Hrun) as Hone.
  rewrite (threadfunc_reap_room past st Hq (queue_room st Hq Hroom)).
  eexists. split; [reflexivity|]. split.
  - intros h Hin. cbn [funcs set_stale_funcs].
    apply unregister_each_removes; assumption.
  - intros h Hnot. rewrite registered_set_stale.
    apply registered_unregister_each; assumption.
Qed.

Lemma reaping_removes_exactly_the_queued_witness :
  ∃ st', (threadfunc_reap (Some 9%positive)
            (BgState (Some 1%positive :: Some 2%positive :: replicate 14 NULL)
                     (Some 1%positive :: replicate 15 NULL) 2 0 2 false)).1 = Some st' ∧
         (Some 1%positive ∉ funcs st') ∧ registered (Some 2%positive) st'.
Proof.
  set (st := BgState (Some 1%positive :: Some 2%positive :: replicate 14 NULL)
                     (Some 1%positive :: replicate 15 NULL) 2 0 2 false).
  assert (Hrun : run [Register NULL (Some 1%positive); Register NULL (Some 2%positive);
                      Unregister true (Some 1%positive)] bg_man_pthreads_init = Some st)
    by (vm_compute; reflexivity).
  assert (Hfresh : registers_fresh
                     [Register NULL (Some 1%positive); Register NULL (Some 2%positive);
                      Unregister true (Some 1%positive)] bg_man_pthreads_init = true)
    by (vm_compute; reflexivity).
  assert (Hroom : ¬ all_occupied (stale_funcs st)).
  { intros Hfull. destruct (Hfull 1%nat ltac:(vm_compute; lia)) as [g Hg]. discriminate. }
  destruct (reaping_removes_exactly_the_queued _ st (Some 9%positive) Hrun Hfresh Hroom)
    as (st' & Hreap & Hgone & Hkept).
  exists st'. split; [exact Hreap|]. split.
  - apply Hgone. apply list_elem_of_In. vm_compute. left. reflexivity.
  - apply Hkept.
    + intros Hin. apply list_elem_of_In in Hin. vm_compute in Hin.
      destruct Hin as [Hin|[]]. discriminate.
    + exists 1%nat. split; [vm_compute; lia | reflexivity].
Defined.

(** ** Callbacks that unregister callbacks *)











(** * The driver thread over one sample *)

Section DriverSampleFacts.

Variable R : Z.
Hypothesis rate_range : 1 ≤ R ÷ 100 ≤ INT_MAX.
Variable callback : handle → bg_state → bg_state.
Hypothesis callback_quiet : quiet_callback callback.

Lemma quiet_callbacks_keep hs : ∀ st,
  stale_funcs (foldl (λ s h, callback h s) st hs) = stale_funcs st ∧
  cli_count (foldl (λ s h, callback h s) st hs) = cli_count st.
Proof.
  induction hs as [|h hs IH]; intros st; [split; reflexivity|].
  cbn [foldl]. destruct (IH (callback h st)) as [-> ->].
  destruct (callback_quiet h st) as (_ & _ & Hs & Hc). auto.
Qed.

Lemma quiet_callback_keeps_table h st :
  funcs (callback h st) = funcs st ∧ max_func (callback h st) = max_func st.
Proof. destruct (callback_quiet h st) as (Hf & Hm & _). auto. Qed.

(** A pass with interrupts enabled and nothing queued. *)
Lemma threadfunc_pass_quiet past st :
  bg_wf st → stale_funcs st = replicate MAX_FUNCS NULL → cli_count st ≤ 0 →
  ∃ st', threadfunc_pass callback past st
           = Some (PassEnds (Some st') (registered_callbacks st)) ∧
         bg_wf st' ∧ stale_funcs st' = replicate MAX_FUNCS NULL ∧ cli_count st' ≤ 0 ∧
         funcs st' = funcs st ∧ max_func st' = max_func st.
Proof.
  intros Hwf Hstale Hcount. unfold threadfunc_pass. cbv zeta.
  set (st1 := driver_await_enabled st).
  assert (Hw : driver_waiting st1 = false).
  { unfold st1, driver_await_enabled. cbn [driver_waiting].
    apply bool_decide_eq_false_2. lia. }
  rewrite Hw.
  assert (Hwf1 : bg_wf st1) by exact Hwf.
  destruct (call_callbacks_calls_registered callback quiet_callback_keeps_table st1 Hwf1)
    as (st2 & Hcall & Hst2 & Hf2 & Hm2).
  rewrite Hcall.
  destruct (quiet_callbacks_keep (registered_callbacks st1) st1) as [Hs2 Hc2].
  rewrite <- Hst2 in Hs2, Hc2.
  assert (Hshape : stale_funcs st2 = packed []) by (rewrite Hs2; exact Hstale).
  rewrite (threadfunc_reap_queue past [] st2 ltac:(simpl; lia) Hshape)
    by (simpl; unfold MAX_FUNCS; lia).
  cbn [fst]. unfold unregister_each. cbn [foldl].
  assert (Hsame : set_stale_funcs (replicate MAX_FUNCS NULL) st2 = st2).
  { change (replicate MAX_FUNCS NULL) with (packed []).
    rewrite <- Hshape. apply set_stale_same. }
  rewrite Hsame.
  exists st2. split; [reflexivity|].
  split; [|split; [exact Hshape|split; [rewrite Hc2; exact Hcount|split; assumption]]].
  destruct Hwf as (H1 & H2 & H3). unfold bg_wf.
  rewrite Hf2, Hm2, Hs2. auto.
Qed.

Lemma threadfunc_sample_quiet past : ∀ fuel t st,
  0 ≤ t < 2 ^ 64 → t ≤ Z.of_nat fuel →
  bg_wf st → stale_funcs st = replicate MAX_FUNCS NULL → cli_count st ≤ 0 →
  ∃ st', threadfunc_sample R callback past fuel t st
           = SampleEnds st'
               (concat (replicate (Z.to_nat ((t + chunk_limit R - 1) / chunk_limit R))
                                  (registered_callbacks st))) ∧
         funcs st' = funcs st ∧ max_func st' = max_func st.
Proof.
  pose proof (chunk_limit_range R rate_range) as HC.
  induction fuel as [|k IH]; intros t st Ht Hfuel Hwf Hstale Hcount.
  - assert (t = 0) as -> by lia. exists st. cbn [threadfunc_sample].
    rewrite Z.eqb_refl. rewrite (Z.div_small (0 + chunk_limit R - 1)) by lia.
    auto.
  - cbn [threadfunc_sample]. destruct (Z.eqb_spec t 0) as [->|Hne].
    + exists st. rewrite (Z.div_small (0 + chunk_limit R - 1)) by lia. auto.
    + destruct (tick_pass_spec R rate_range t ltac:(lia)) as [-> Hi].
      destruct (threadfunc_pass_quiet past st Hwf Hstale Hcount)
        as (st1 & -> & Hwf1 & Hstale1 & Hcount1 & Hf1 & Hm1).
      destruct (IH (t - Z.min t (chunk_limit R)) st1 ltac:(lia) ltac:(lia)
                  Hwf1 Hstale1 Hcount1) as (st' & -> & Hf' & Hm').
      exists st'. rewrite Hf', Hm', Hf1, Hm1. split; [|auto].
      f_equal. unfold registered_callbacks at 2. rewrite Hf1, Hm1.
      fold (registered_callbacks st).
      assert (Hn : (t + chunk_limit R - 1) / chunk_limit R
                   = (t - Z.min t (chunk_limit R) + chunk_limit R - 1) / chunk_limit R + 1).
      { destruct (Z_lt_le_dec t (chunk_limit R)) as [Hsmall|Hbig].
        - rewrite Z.min_l by lia.
          replace (t - t + chunk_limit R - 1) with (chunk_limit R - 1) by lia.
          rewrite (Z.div_small (chunk_limit R - 1)) by lia.
          replace (t + chunk_limit R - 1) with (t - 1 + 1 * chunk_limit R) by lia.
          rewrite Z.div_add by lia. rewrite Z.div_small by lia. reflexivity.
        - rewrite Z.min_r by lia.
          replace (t - chunk_limit R + chunk_limit R - 1) with (t - 1) by lia.
          replace (t + chunk_limit R - 1) with (t - 1 + 1 * chunk_limit R) by lia.
          rewrite Z.div_add by lia. reflexivity. }
      rewrite Hn, Z2Nat.inj_add by (try apply Z.div_pos; lia).
      rewrite Nat.add_comm. reflexivity.
Qed.

End DriverSampleFacts.

(** X19: for a rate [R] with [R/100] between 1 and [INT_MAX], with
    interrupts enabled, nothing queued and callbacks that leave the
    variables of this file alone, the loop over a sample of [t]
    microseconds ends, and it has called every registered callback
    once for each pass - [t] divided by [INT_MAX/(R/100)], rounded up,
    times - whatever the number of ticks the passes scaled. *)
Theorem callbacks_called_once_per_pass
    (R : Z) (callback : handle → bg_state → bg_state) (past : bg_func)
    (t : Z) (st : bg_state) :
  1 ≤ R ÷ 100 ≤ INT_MAX → quiet_callback callback →
  0 ≤ t < 2 ^ 64 →
  bg_wf st → stale_funcs st = replicate MAX_FUNCS NULL → cli_count st ≤ 0 →
  ∃ st', threadfunc_sample R callback past (Z.to_nat t) t st
           = SampleEnds st'
               (concat (replicate (Z.to_nat ((t + chunk_limit R - 1) / chunk_limit R))
                                  (registered_callbacks st))) ∧
         funcs st' = funcs st ∧ max_func st' = max_func st.
Proof.
  intros HR Hquiet Ht Hwf Hstale Hcount.
  apply (threadfunc_sample_quiet R HR callback Hquiet); try assumption.
  rewrite Z2Nat.id; lia.
Qed.

Lemma callbacks_called_once_per_pass_witness :
  ∃ st', threadfunc_sample ALLEGRO_TIMERS_PER_SECOND (λ _ s, s) NULL (Z.to_nat 20) 20
           (BgState (Some 1%positive :: Some 2%positive :: replicate 14 NULL)
                    (replicate MAX_FUNCS NULL) 2 0 2 false)
         = SampleEnds st' [1%positive; 2%positive].
Proof.
  assert (HR : 1 ≤ ALLEGRO_TIMERS_PER_SECOND ÷ 100 ≤ INT_MAX)
    by (vm_compute; split; discriminate).
  assert (Hq : quiet_callback (λ (_ : handle) (s : bg_state), s))
    by (intros h s; repeat split; reflexivity).
  assert (Ht : 0 ≤ 20 < 2 ^ 64) by (vm_compute; split; [discriminate | reflexivity]).
  assert (Hwf : bg_wf (BgState (Some 1%positive :: Some 2%positive :: replicate 14 NULL)
                               (replicate MAX_FUNCS NULL) 2 0 2 false))
    by (split; [reflexivity | split; [reflexivity | vm_compute; lia]]).
  destruct (callbacks_called_once_per_pass ALLEGRO_TIMERS_PER_SECOND (λ _ s, s) NULL 20
              _ HR Hq Ht Hwf eq_refl ltac:(vm_compute; discriminate))
    as (st' & Hsample & _).
  exists st'. exact Hsample.
Defined.
